(** * A shallow embedding of [src/tokenizer.ts]

    The tokenizer scans a JavaScript string, i.e. a sequence of UTF-16 code
    units, by index.  A code unit is a number [N]; a string is a list of
    code units; [source[pos]] is [nth_error] (with [None] for JavaScript's
    [undefined]) and [source.slice(a, b)] is [slice].  The cursor [pos] is a
    natural number; [line] and [column] are integers, because the
    whitespace branch computes [column - (pos - start)], which can drop
    below one. *)

From Stdlib Require Import Strings.String Strings.Ascii.
From Stdlib Require Import List NArith ZArith Lia Bool Arith.
Import ListNotations.

Open Scope N_scope.

(** ** Strings of UTF-16 code units *)

Definition char := N.
Definition jsstring := list char.

(** Reads an ASCII literal as a JavaScript string (used for examples and
    for the constant tables of the source). *)
Definition js (s : string) : jsstring :=
  List.map N_of_ascii (list_ascii_of_string s).

Fixpoint str_eqb (a b : jsstring) : bool :=
  match a, b with
  | [], [] => true
  | x :: a', y :: b' => (x =? y) && str_eqb a' b'
  | _, _ => false
  end.

(** [s.slice(a, b)] for [0 <= a]; an end before the start gives the empty
    string and an end beyond the length is clipped. *)
Definition slice (s : jsstring) (a b : nat) : jsstring :=
  firstn (b - a) (skipn a s).

(** [x === c] for a one-character literal [c] and a value [x] read by
    index, [None] being [undefined]. *)
Definition is_char (c : char) (x : option char) : bool :=
  match x with
  | Some d => d =? c
  | None => false
  end.

(** [x === y] for two values read by index. *)
Definition opt_eqb (x y : option char) : bool :=
  match x, y with
  | Some a, Some b => a =? b
  | None, None => true
  | _, _ => false
  end.

Definition NL : char := 10.         (* line feed *)
Definition DQUOTE : char := 34.     (* double quote *)
Definition SQUOTE : char := 39.     (* single quote *)
Definition SLASH : char := 47.      (* slash *)
Definition BACKSLASH : char := 92.  (* backslash *)

(** ** The regular expressions of the source

    Each test is applied to one code unit.  [RegExp.prototype.test] turns
    its argument into a string first, so on [undefined] it searches the
    text [undefined]: no blank and no digit, but letters. *)

(* /\s/ on a code unit: the ECMAScript WhiteSpace and LineTerminator sets *)
Definition is_space (c : char) : bool :=
  ((9 <=? c) && (c <=? 13)) || (c =? 32) || (c =? 160) || (c =? 5760)
  || ((8192 <=? c) && (c <=? 8202)) || (c =? 8232) || (c =? 8233)
  || (c =? 8239) || (c =? 8287) || (c =? 12288) || (c =? 65279).

(* /[0-9]/ *)
Definition is_digit (c : char) : bool := (48 <=? c) && (c <=? 57).

(* /[0-9.]/ *)
Definition is_digit_or_dot (c : char) : bool := is_digit c || (c =? 46).

(* /[a-zA-Z_]/ *)
Definition is_ident_start (c : char) : bool :=
  ((97 <=? c) && (c <=? 122)) || ((65 <=? c) && (c <=? 90)) || (c =? 95).

(* /[a-zA-Z0-9_]/ *)
Definition is_ident_char (c : char) : bool := is_ident_start c || is_digit c.

Definition re_test (f : char -> bool) (on_undefined : bool)
    (x : option char) : bool :=
  match x with
  | Some c => f c
  | None => on_undefined
  end.

Definition re_space := re_test is_space false.
Definition re_digit := re_test is_digit false.
Definition re_digit_or_dot := re_test is_digit_or_dot false.
Definition re_ident_start := re_test is_ident_start true.
Definition re_ident_char := re_test is_ident_char true.

Close Scope N_scope.

(** ** Tokens and the constant tables *)

Inductive TokenType :=
| Keyword | Identifier | Number | StringLit
| Operator | Punctuation | Whitespace | Comment.

Definition TokenType_eqb (a b : TokenType) : bool :=
  match a, b with
  | Keyword, Keyword | Identifier, Identifier | Number, Number
  | StringLit, StringLit | Operator, Operator | Punctuation, Punctuation
  | Whitespace, Whitespace | Comment, Comment => true
  | _, _ => false
  end.

Record Token := mkToken {
  type : TokenType;
  value : jsstring;
  line : Z;
  column : Z
}.

(** [set.has(v)] for a [Set] of strings, kept as the list of its members. *)
Definition has (set : list jsstring) (v : jsstring) : bool :=
  existsb (str_eqb v) set.

(** [set.has(x)] for a value read by index: [undefined] is in no set. *)
Definition has_char (set : list jsstring) (x : option char) : bool :=
  match x with
  | Some c => has set [c]
  | None => false
  end.

Definition KEYWORDS : list jsstring :=
  List.map js
    ["if"; "else"; "while"; "for"; "return"; "function"; "const"; "let";
     "var"]%string.

Definition OPERATORS : list jsstring :=
  List.map js
    ["+"; "-"; "*"; "/"; "="; "=="; "!="; "<"; ">"; "<="; ">="; "&&";
     "||"]%string.

Definition PUNCTUATION : list jsstring :=
  List.map js ["("; ")"; "{"; "}"; "["; "]"; ";"; ","; "."]%string.

(** ** The scanner state and its loops *)

Record State := mkState {
  pos : nat;
  cur_line : Z;
  cur_column : Z;
  tokens : list Token
}.

(** [while (cond) body], run for at most [fuel] iterations. *)
Fixpoint while_loop {St : Type} (fuel : nat) (cond : St -> bool)
    (body : St -> St) (st : St) : St :=
  match fuel with
  | O => st
  | S fuel' =>
      if cond st then while_loop fuel' cond body (body st) else st
  end.

Section Scanner.

Variable source : jsstring.

Definition in_range (st : State) : bool := (pos st <? length source)%nat.

Definition cur (st : State) : option char := nth_error source (pos st).

(* pos++; column++; *)
Definition advance (st : State) : State :=
  mkState (S (pos st)) (cur_line st) (cur_column st + 1) (tokens st).

(* tokens.push(t) *)
Definition push (t : Token) (st : State) : State :=
  mkState (pos st) (cur_line st) (cur_column st) (tokens st ++ [t]).

(** The number of iterations no inner loop can exceed: each one moves the
    cursor forward and stops at the end of the source. *)
Definition fuel_of (st : State) : nat := length source - pos st.

(** *** Whitespace *)

Definition ws_cond (st : State) : bool := in_range st && re_space (cur st).

Definition ws_body (st : State) : State :=
  if is_char NL (cur st)
  then mkState (S (pos st)) (cur_line st + 1) 1 (tokens st)
  else mkState (S (pos st)) (cur_line st) (cur_column st + 1) (tokens st).

Definition scan_whitespace (st : State) : State :=
  let start := pos st in
  let st' := while_loop (fuel_of st) ws_cond ws_body st in
  push (mkToken Whitespace (slice source start (pos st')) (cur_line st')
          (cur_column st' - Z.of_nat (pos st' - start))) st'.

(** *** Single-line comment *)

Definition comment_cond (st : State) : bool :=
  in_range st && negb (is_char NL (cur st)).

Definition scan_comment (st : State) : State :=
  let start := pos st in
  let startCol := cur_column st in
  let st' := while_loop (fuel_of st) comment_cond advance st in
  push (mkToken Comment (slice source start (pos st')) (cur_line st')
          startCol) st'.

(** *** String *)

Definition string_cond (quote : option char) (st : State) : bool :=
  in_range st && negb (opt_eqb (cur st) quote).

Definition string_body (st : State) : State :=
  advance (if is_char BACKSLASH (cur st) then advance st else st).

Definition scan_string (st : State) : State :=
  let quote := cur st in
  let start := pos st in
  let startCol := cur_column st in
  let st1 := advance st in
  let st2 := while_loop (fuel_of st1) (string_cond quote) string_body st1 in
  let st3 := advance st2 in (* closing quote *)
  push (mkToken StringLit (slice source start (pos st3)) (cur_line st3)
          startCol) st3.

(** *** Number *)

Definition number_cond (st : State) : bool :=
  in_range st && re_digit_or_dot (cur st).

Definition scan_number (st : State) : State :=
  let start := pos st in
  let startCol := cur_column st in
  let st' := while_loop (fuel_of st) number_cond advance st in
  push (mkToken Number (slice source start (pos st')) (cur_line st')
          startCol) st'.

(** *** Identifier / keyword *)

Definition ident_cond (st : State) : bool :=
  in_range st && re_ident_char (cur st).

Definition scan_ident (st : State) : State :=
  let start := pos st in
  let startCol := cur_column st in
  let st' := while_loop (fuel_of st) ident_cond advance st in
  let value := slice source start (pos st') in
  push (mkToken (if has KEYWORDS value then Keyword else Identifier) value
          (cur_line st') startCol) st'.

(** *** Operators, punctuation and unknown characters *)

Definition two_char (st : State) : jsstring :=
  slice source (pos st) (pos st + 2).

Definition emit2 (st : State) : State :=
  advance (advance
    (push (mkToken Operator (two_char st) (cur_line st) (cur_column st)) st)).

Definition emit1 (ty : TokenType) (st : State) : State :=
  advance
    (push (mkToken ty (slice source (pos st) (S (pos st))) (cur_line st)
             (cur_column st)) st).

(** The branch conditions of the loop body, in the order of the source. *)
Definition is_whitespace_start (st : State) : bool := re_space (cur st).

Definition is_comment_start (st : State) : bool :=
  is_char SLASH (cur st) && is_char SLASH (nth_error source (pos st + 1)).

Definition is_string_start (st : State) : bool :=
  is_char DQUOTE (cur st) || is_char SQUOTE (cur st).

Definition is_number_start (st : State) : bool := re_digit (cur st).

Definition is_ident_start_at (st : State) : bool := re_ident_start (cur st).

Definition is_two_char_operator (st : State) : bool :=
  (pos st + 1 <? length source)%nat && has OPERATORS (two_char st).

Definition is_operator (st : State) : bool := has_char OPERATORS (cur st).

Definition is_punctuation (st : State) : bool :=
  has_char PUNCTUATION (cur st).

(** One iteration of the main loop. *)
Definition step (st : State) : State :=
  if is_whitespace_start st then scan_whitespace st
  else if is_comment_start st then scan_comment st
  else if is_string_start st then scan_string st
  else if is_number_start st then scan_number st
  else if is_ident_start_at st then scan_ident st
  else if is_two_char_operator st then emit2 st
  else if is_operator st then emit1 Operator st
  else if is_punctuation st then emit1 Punctuation st
  else advance st. (* unknown character: skip *)

(** The iteration reaches the last branch: the character is unknown. *)
Definition unrecognized (st : State) : bool :=
  negb (is_whitespace_start st || is_comment_start st || is_string_start st
        || is_number_start st || is_ident_start_at st
        || is_two_char_operator st || is_operator st || is_punctuation st).

Definition init : State := mkState 0 1 1 [].

Definition run (fuel : nat) : State := while_loop fuel in_range step init.

End Scanner.

Definition tokenize (source : jsstring) : list Token :=
  tokens (run source (length source)).

Definition stripComments (tokens : list Token) : list Token :=
  filter (fun t => negb (TokenType_eqb (type t) Comment)) tokens.

Definition stripWhitespace (tokens : list Token) : list Token :=
  filter (fun t => negb (TokenType_eqb (type t) Whitespace)) tokens.


(** ** Notions used to state the properties *)

(** The longest prefix of [l] whose characters all satisfy [f]. *)
Fixpoint take_while (f : char -> bool) (l : jsstring) : jsstring :=
  match l with
  | c :: l' => if f c then c :: take_while f l' else []
  | [] => []
  end.

Definition not_newline (c : char) : bool := negb (c =? NL)%N.

(** The number of line feeds in a string. *)
Fixpoint count_nl (l : jsstring) : nat :=
  match l with
  | [] => 0
  | c :: l' => (if (c =? NL)%N then 1 else 0) + count_nl l'
  end.

(** The offset in [l], the text after an opening delimiter [q], of the
    delimiter that closes the literal: the first occurrence of [q] that is
    not the character following a backslash, a backslash escaping whatever
    comes next.  [None] when the text ends first. *)
Fixpoint find_close (q : char) (l : jsstring) : option nat :=
  match l with
  | [] => None
  | c :: l' =>
      if (c =? q)%N then Some 0
      else if (c =? BACKSLASH)%N then
        match l' with
        | [] => None
        | _ :: l'' => option_map (fun k => S (S k)) (find_close q l'')
        end
      else option_map S (find_close q l')
  end.

(** Where a position of the source lies, following the specification: the
    line is one plus the number of line feeds before the offset, and the
    column is one plus the number of characters between the last of those
    line feeds (or the start of the text) and the offset. *)
Definition line_at (source : jsstring) (offset : nat) : Z :=
  1 + Z.of_nat (count_nl (firstn offset source)).

Fixpoint column_after (col : Z) (l : jsstring) : Z :=
  match l with
  | [] => col
  | c :: l' => column_after (if (c =? NL)%N then 1 else col + 1)%Z l'
  end.

Definition column_at (source : jsstring) (offset : nat) : Z :=
  column_after 1 (firstn offset source).

(** A line feed, for the examples. *)
Definition nl : string := String (ascii_of_nat 10) EmptyString.

(** The text of a token sequence: [tokens.map(t => t.value).join("")]. *)
Definition text_of (toks : list Token) : jsstring :=
  concat (List.map value toks).

(** The cursor positions at which the main loop, run from [st], takes its
    last branch and drops a character. *)
Fixpoint dropped (source : jsstring) (fuel : nat) (st : State) : list nat :=
  match fuel with
  | O => []
  | S fuel' =>
      if in_range source st
      then (if unrecognized source st then [pos st] else [])
             ++ dropped source fuel' (step source st)
      else []
  end.

Definition unrecognized_positions (source : jsstring) : list nat :=
  dropped source (length source) init.

(** The characters that start a token wherever the cursor meets them:
    blanks, digits, letters, the underscore, the two quotes, the
    one-character operators and the punctuation marks. *)
Definition recognized_char (c : char) : bool :=
  is_space c || is_digit c || is_ident_start c || (c =? DQUOTE)%N
  || (c =? SQUOTE)%N || has OPERATORS [c] || has PUNCTUATION [c].

(** What an iteration that emits a token does: the token is the text
    between the old and the new cursor, the cursor moves forward, and the
    line counter grows by the line feeds of that text unless the token is
    a string. *)
Definition emits (source : jsstring) (st st' : State) (t : Token) : Prop :=
  tokens st' = tokens st ++ [t]
  /\ value t = slice source (pos st) (pos st')
  /\ pos st < pos st'
  /\ line t = cur_line st'
  /\ cur_line st'
     = (cur_line st
        + match type t with
          | StringLit => 0
          | _ => Z.of_nat (count_nl (value t))
          end)%Z.

(** The newlines of a token sequence that lie outside its string tokens. *)
Definition line_feeds (t : Token) : nat :=
  match type t with
  | StringLit => 0
  | _ => count_nl (value t)
  end.

Definition newlines_outside_strings (toks : list Token) : nat :=
  list_sum (List.map line_feeds toks).

(** The line counter, and the line of every token emitted so far, count
    the line feeds of the tokens that are not strings. *)
Definition lines_ok (st : State) : Prop :=
  cur_line st = (1 + Z.of_nat (newlines_outside_strings (tokens st)))%Z
  /\ forall i t, nth_error (tokens st) i = Some t ->
       line t
       = (1 + Z.of_nat (newlines_outside_strings (firstn (S i) (tokens st))))%Z.

(** [tokenizeCompact] of the test suite: tokenize and drop whitespace. *)
Definition tokenizeCompact (source : jsstring) : list Token :=
  stripWhitespace (tokenize source).

(** The text [l], whose first character has offset [p], without the
    characters whose offsets are in [drop]. *)
Fixpoint remove_at (p : nat) (drop : list nat) (l : jsstring) : jsstring :=
  match l with
  | [] => []
  | c :: l' =>
      if existsb (Nat.eqb p) drop then remove_at (S p) drop l'
      else c :: remove_at (S p) drop l'
  end.

(** The shape of a token's text, by type.  A string starts with a quote
    and, when the text after the quote has a closing delimiter, ends right
    after it. *)
Definition starts_comment (v : jsstring) : bool :=
  match v with
  | a :: b :: _ => (a =? SLASH)%N && (b =? SLASH)%N
  | _ => false
  end.

Definition closes_at_end (q : char) (body : jsstring) : bool :=
  match find_close q body with
  | Some k => length body =? S k
  | None => true
  end.

Definition well_formed (t : Token) : bool :=
  let v := value t in
  match type t with
  | Whitespace => re_test is_space false (hd_error v) && forallb is_space v
  | Comment => starts_comment v && forallb not_newline v
  | StringLit =>
      match v with
      | q :: body =>
          ((q =? DQUOTE)%N || (q =? SQUOTE)%N) && closes_at_end q body
      | [] => false
      end
  | Number =>
      re_test is_digit false (hd_error v) && forallb is_digit_or_dot v
  | Identifier =>
      re_test is_ident_start false (hd_error v) && forallb is_ident_char v
      && negb (has KEYWORDS v)
  | Keyword =>
      re_test is_ident_start false (hd_error v) && forallb is_ident_char v
      && has KEYWORDS v
  | Operator => has OPERATORS v
  | Punctuation => has PUNCTUATION v && (length v =? 1)
  end.

(** No string token spans a line feed. *)
Definition strings_single_line (toks : list Token) : bool :=
  forallb
    (fun t =>
       match type t with
       | StringLit => count_nl (value t) =? 0
       | _ => true
       end) toks.

(** What an iteration that emits a token does to the counters: a
    whitespace token takes the line after its run and the column after the
    run minus the length of the run; any other token takes the line and
    the column the iteration started with, and the column then grows with
    the cursor. *)
Definition places (source : jsstring) (st st' : State) (t : Token) : Prop :=
  tokens st' = tokens st ++ [t]
  /\ value t = slice source (pos st) (pos st')
  /\ pos st < pos st'
  /\ well_formed t = true
  /\ match type t with
     | Whitespace =>
         line t = cur_line st'
         /\ cur_line st' = (cur_line st + Z.of_nat (count_nl (value t)))%Z
         /\ cur_column st' = column_after (cur_column st) (value t)
         /\ column t = (cur_column st' - Z.of_nat (length (value t)))%Z
     | _ =>
         line t = cur_line st /\ column t = cur_column st
         /\ cur_line st' = cur_line st
         /\ cur_column st'
            = (cur_column st + Z.of_nat (pos st' - pos st))%Z
     end.

(** The counters never fall below one; nor do the fields of a token,
    except the column of a whitespace token. *)
Definition one_based (st : State) : Prop :=
  (1 <= cur_line st)%Z /\ (1 <= cur_column st)%Z
  /\ forall t, In t (tokens st) ->
       (1 <= line t)%Z /\ (type t <> Whitespace -> (1 <= column t)%Z).

(** The counters and the tokens agree with the layout of the source: the
    tokens spell the text before the cursor, the counters are the line and
    the column of the cursor, and every token that is not a whitespace run
    over a line feed carries the line and the column of the offset at
    which its text starts. *)
Definition laid_out (source : jsstring) (st : State) : Prop :=
  text_of (tokens st) = firstn (pos st) source
  /\ (pos st <= length source ->
      cur_line st = line_at source (pos st)
      /\ cur_column st = column_at source (pos st))
  /\ forall i t, nth_error (tokens st) i = Some t ->
       (type t = Whitespace -> count_nl (value t) = 0) ->
       let off := length (text_of (firstn i (tokens st))) in
       line t = line_at source off /\ column t = column_at source off.

(** The branches before the operators do not apply to [c]. *)
Definition symbol_char (c : char) : bool :=
  negb (is_space c) && negb (c =? SLASH)%N && negb (c =? DQUOTE)%N
  && negb (c =? SQUOTE)%N && negb (is_digit c) && negb (is_ident_start c).

(** A string token whose text has its closing delimiter. *)
Definition closed_string (t : Token) : bool :=
  match type t, value t with
  | StringLit, q :: body =>
      match find_close q body with
      | Some _ => true
      | None => false
      end
  | _, _ => true
  end.

(** Every token but the last is closed, and so is the last while the
    cursor is inside the source. *)
Definition closed_so_far (source : jsstring) (st : State) : Prop :=
  (forall i t, nth_error (tokens st) i = Some t ->
     S i < length (tokens st) -> closed_string t = true)
  /\ (in_range source st = true ->
      forall t, In t (tokens st) -> closed_string t = true).

(** Turns the boolean tests on code units into arithmetic. *)
Ltac char_arith :=
  unfold is_ident_char, is_ident_start, is_digit_or_dot, is_digit, is_space,
    not_newline, NL, SLASH, DQUOTE, SQUOTE, BACKSLASH in *;
  repeat rewrite ?negb_true_iff, ?negb_false_iff, ?orb_true_iff,
    ?andb_true_iff, ?orb_false_iff, ?andb_false_iff, ?N.leb_le, ?N.eqb_eq,
    ?N.leb_gt, ?N.eqb_neq in *;
  lia.

(** ** Lists and strings *)

Lemma str_eqb_eq (a b : jsstring) : str_eqb a b = true <-> a = b.
Proof.
  revert b; induction a as [|x a IH]; intros [|y b]; simpl;
    try (split; [discriminate | congruence]); try tauto.
  rewrite andb_true_iff, N.eqb_eq, IH.
  split; [intros [-> ->]; reflexivity | intros [= -> ->]; auto].
Qed.

Lemma has_In (set : list jsstring) (v : jsstring) :
  has set v = true <-> In v set.
Proof.
  unfold has. rewrite existsb_exists. split.
  - intros [x [Hx Heq]]. apply str_eqb_eq in Heq. subst. exact Hx.
  - intros H. exists v. split; [exact H | apply str_eqb_eq; reflexivity].
Qed.

Lemma skipn_cons_nth (l : jsstring) (p : nat) (c : char) :
  nth_error l p = Some c -> skipn p l = c :: skipn (S p) l.
Proof.
  revert p; induction l as [|x l IH]; intros [|p] H; simpl in *;
    try discriminate.
  - congruence.
  - rewrite (IH p H). reflexivity.
Qed.

Lemma skipn_past (l : jsstring) (p : nat) :
  length l <= p -> skipn p l = [].
Proof. intros H. apply skipn_all2. exact H. Qed.

Lemma firstn_slice (l : jsstring) (a b : nat) :
  a <= b -> firstn a l ++ slice l a b = firstn b l.
Proof.
  intros H. unfold slice.
  rewrite <- (firstn_skipn a (firstn b l)) at 1.
  rewrite firstn_firstn, Nat.min_l by exact H.
  rewrite skipn_firstn_comm. reflexivity.
Qed.

Lemma slice_prefix (l : jsstring) (a : nat) (w : jsstring) (rest : jsstring) :
  skipn a l = w ++ rest -> slice l a (a + length w) = w.
Proof.
  intros H. unfold slice. rewrite H.
  replace (a + length w - a) with (length w + 0) by lia.
  rewrite firstn_app_2. simpl. apply app_nil_r.
Qed.

Lemma take_while_split (f : char -> bool) (l : jsstring) :
  l = take_while f l ++ skipn (length (take_while f l)) l.
Proof.
  induction l as [|c l IH]; simpl; [reflexivity|].
  destruct (f c); simpl; [f_equal; exact IH | reflexivity].
Qed.

Lemma take_while_all (f : char -> bool) (l : jsstring) :
  forallb f (take_while f l) = true.
Proof.
  induction l as [|c l IH]; simpl; [reflexivity|].
  destruct (f c) eqn:E; simpl; [rewrite E; exact IH | reflexivity].
Qed.

Lemma take_while_stop (f : char -> bool) (l : jsstring) (c : char) :
  nth_error l (length (take_while f l)) = Some c -> f c = false.
Proof.
  induction l as [|x l IH]; simpl; [discriminate|].
  destruct (f x) eqn:E; simpl; [exact IH | congruence].
Qed.

Lemma take_while_length (f : char -> bool) (l : jsstring) :
  length (take_while f l) <= length l.
Proof.
  induction l as [|c l IH]; simpl; [lia|].
  destruct (f c); simpl; lia.
Qed.

(** ** Loops *)

Section WhileLoop.

Context {St : Type} (cond : St -> bool) (body : St -> St).

Lemma while_loop_ind (P : St -> Prop) :
  (forall st, P st -> cond st = true -> P (body st)) ->
  forall fuel st, P st -> P (while_loop fuel cond body st).
Proof.
  intros Hbody fuel; induction fuel as [|fuel IH]; intros st HP; simpl.
  - exact HP.
  - destruct (cond st) eqn:E; [apply IH, Hbody; assumption | exact HP].
Qed.

Variable measure : St -> nat.
Hypothesis decreases :
  forall st, cond st = true -> measure (body st) < measure st.

Lemma while_loop_exit (fuel : nat) (st : St) :
  measure st <= fuel -> cond (while_loop fuel cond body st) = false.
Proof.
  revert st; induction fuel as [|fuel IH]; intros st Hm; simpl.
  - destruct (cond st) eqn:E; [|reflexivity].
    apply decreases in E. lia.
  - destruct (cond st) eqn:E; [|exact E].
    apply IH. apply decreases in E. lia.
Qed.

Lemma while_loop_enough (fuel fuel' : nat) (st : St) :
  measure st <= fuel -> measure st <= fuel' ->
  while_loop fuel cond body st = while_loop fuel' cond body st.
Proof.
  revert fuel' st; induction fuel as [|fuel IH]; intros fuel' st H H'.
  - destruct fuel' as [|fuel']; simpl; [reflexivity|].
    destruct (cond st) eqn:E; [|reflexivity].
    apply decreases in E. lia.
  - destruct fuel' as [|fuel']; simpl.
    + destruct (cond st) eqn:E; [|reflexivity].
      apply decreases in E. lia.
    + destruct (cond st) eqn:E; [|reflexivity].
      apply decreases in E. apply IH; lia.
Qed.

End WhileLoop.

(** ** The inner loops *)

Section ScannerFacts.

Variable source : jsstring.

Lemma in_range_lt (st : State) :
  in_range source st = true <-> pos st < length source.
Proof. unfold in_range. apply Nat.ltb_lt. Qed.

Lemma in_range_ge (st : State) :
  in_range source st = false <-> length source <= pos st.
Proof. unfold in_range. apply Nat.ltb_ge. Qed.

Lemma cur_Some_in_range (st : State) (c : char) :
  cur source st = Some c -> in_range source st = true.
Proof.
  unfold cur. intros H. apply in_range_lt.
  apply nth_error_Some. congruence.
Qed.

Lemma in_range_cur (st : State) :
  in_range source st = true -> exists c, cur source st = Some c.
Proof.
  intros H. apply in_range_lt in H. unfold cur.
  destruct (nth_error source (pos st)) as [c|] eqn:E; [eauto|].
  apply nth_error_None in E. lia.
Qed.

(** A loop [while (pos < source.length && test(source[pos])) { ...; pos++ }]
    stops after the longest run of characters passing the test. *)
Section SimpleLoop.

Variable f : char -> bool.
Variable cond : State -> bool.
Variable body : State -> State.
Hypothesis cond_in : forall st c, cur source st = Some c -> cond st = f c.
Hypothesis cond_out : forall st, in_range source st = false -> cond st = false.
Hypothesis body_pos : forall st, pos (body st) = S (pos st).

Lemma simple_loop_pos (fuel : nat) (st : State) :
  length source - pos st <= fuel ->
  pos (while_loop fuel cond body st)
  = pos st + length (take_while f (skipn (pos st) source)).
Proof.
  revert st; induction fuel as [|fuel IH]; intros st Hfuel; simpl.
  - rewrite skipn_past by lia. simpl. lia.
  - destruct (in_range source st) eqn:Hr.
    + destruct (in_range_cur st Hr) as [c Hc].
      rewrite (cond_in st c Hc).
      rewrite (skipn_cons_nth source (pos st) c Hc). simpl.
      destruct (f c); [|simpl; lia].
      rewrite IH by (rewrite body_pos; lia).
      rewrite body_pos. simpl. lia.
    + rewrite (cond_out st Hr).
      apply in_range_ge in Hr. rewrite skipn_past by lia. simpl. lia.
Qed.

Lemma simple_loop_decreases (st : State) :
  cond st = true -> fuel_of source (body st) < fuel_of source st.
Proof.
  intros H. unfold fuel_of. rewrite body_pos.
  destruct (in_range source st) eqn:Hr.
  - apply in_range_lt in Hr. lia.
  - rewrite (cond_out st Hr) in H. discriminate.
Qed.

Lemma simple_loop_exit (st : State) :
  cond (while_loop (fuel_of source st) cond body st) = false.
Proof.
  apply (while_loop_exit cond body (fuel_of source) simple_loop_decreases).
  lia.
Qed.

End SimpleLoop.

(** The same loop with body [pos++; column++]. *)
Lemma advance_loop (f : char -> bool) (cond : State -> bool) (st : State) :
  (forall st c, cur source st = Some c -> cond st = f c) ->
  (forall st, in_range source st = false -> cond st = false) ->
  let n := length (take_while f (skipn (pos st) source)) in
  while_loop (fuel_of source st) cond advance st
  = mkState (pos st + n) (cur_line st) (cur_column st + Z.of_nat n)
      (tokens st).
Proof.
  intros Hin Hout n.
  pose proof (simple_loop_pos f cond advance Hin Hout (fun _ => eq_refl)
                (fuel_of source st) st (Nat.le_refl _)) as Hpos.
  fold n in Hpos.
  assert (Hinv :
    (fun s => cur_line s = cur_line st /\ tokens s = tokens st
              /\ (cur_column s - Z.of_nat (pos s)
                  = cur_column st - Z.of_nat (pos st))%Z)
      (while_loop (fuel_of source st) cond advance st)).
  { apply while_loop_ind; [|auto].
    intros s (Hl & Ht & Hc) _. simpl. repeat split; auto. lia. }
  simpl in Hinv. destruct Hinv as (Hl & Ht & Hc).
  destruct (while_loop (fuel_of source st) cond advance st) as [p l c t].
  simpl in *. subst. f_equal. lia.
Qed.

(** *** The conditions of the four simple loops *)

Lemma ws_cond_in (st : State) (c : char) :
  cur source st = Some c -> ws_cond source st = is_space c.
Proof.
  intros H. unfold ws_cond. rewrite (cur_Some_in_range st c H), H.
  reflexivity.
Qed.

Lemma ws_cond_out (st : State) :
  in_range source st = false -> ws_cond source st = false.
Proof. intros H. unfold ws_cond. rewrite H. reflexivity. Qed.

Lemma comment_cond_in (st : State) (c : char) :
  cur source st = Some c -> comment_cond source st = not_newline c.
Proof.
  intros H. unfold comment_cond. rewrite (cur_Some_in_range st c H), H.
  reflexivity.
Qed.

Lemma comment_cond_out (st : State) :
  in_range source st = false -> comment_cond source st = false.
Proof. intros H. unfold comment_cond. rewrite H. reflexivity. Qed.

Lemma number_cond_in (st : State) (c : char) :
  cur source st = Some c -> number_cond source st = is_digit_or_dot c.
Proof.
  intros H. unfold number_cond. rewrite (cur_Some_in_range st c H), H.
  reflexivity.
Qed.

Lemma number_cond_out (st : State) :
  in_range source st = false -> number_cond source st = false.
Proof. intros H. unfold number_cond. rewrite H. reflexivity. Qed.

Lemma ident_cond_in (st : State) (c : char) :
  cur source st = Some c -> ident_cond source st = is_ident_char c.
Proof.
  intros H. unfold ident_cond. rewrite (cur_Some_in_range st c H), H.
  reflexivity.
Qed.

Lemma ident_cond_out (st : State) :
  in_range source st = false -> ident_cond source st = false.
Proof. intros H. unfold ident_cond. rewrite H. reflexivity. Qed.

Lemma ws_body_pos (st : State) : pos (ws_body source st) = S (pos st).
Proof. unfold ws_body. destruct (is_char NL (cur source st)); reflexivity. Qed.

Lemma slice_take_while (f : char -> bool) (p : nat) :
  slice source p (p + length (take_while f (skipn p source)))
  = take_while f (skipn p source).
Proof. eapply slice_prefix. apply take_while_split. Qed.

(** *** What each branch of the main loop produces *)

Lemma scan_comment_spec (st : State) :
  let w := take_while not_newline (skipn (pos st) source) in
  scan_comment source st
  = mkState (pos st + length w) (cur_line st)
      (cur_column st + Z.of_nat (length w))
      (tokens st ++ [mkToken Comment w (cur_line st) (cur_column st)]).
Proof.
  intros w. unfold scan_comment.
  rewrite (advance_loop not_newline) by
    (intros; first [apply comment_cond_in | apply comment_cond_out]; assumption).
  unfold push. cbn [pos cur_line cur_column tokens].
  rewrite slice_take_while. reflexivity.
Qed.

Lemma scan_number_spec (st : State) :
  let w := take_while is_digit_or_dot (skipn (pos st) source) in
  scan_number source st
  = mkState (pos st + length w) (cur_line st)
      (cur_column st + Z.of_nat (length w))
      (tokens st ++ [mkToken Number w (cur_line st) (cur_column st)]).
Proof.
  intros w. unfold scan_number.
  rewrite (advance_loop is_digit_or_dot) by
    (intros; first [apply number_cond_in | apply number_cond_out]; assumption).
  unfold push. cbn [pos cur_line cur_column tokens].
  rewrite slice_take_while. reflexivity.
Qed.

Lemma scan_ident_spec (st : State) :
  let w := take_while is_ident_char (skipn (pos st) source) in
  scan_ident source st
  = mkState (pos st + length w) (cur_line st)
      (cur_column st + Z.of_nat (length w))
      (tokens st
       ++ [mkToken (if has KEYWORDS w then Keyword else Identifier) w
             (cur_line st) (cur_column st)]).
Proof.
  intros w. unfold scan_ident.
  rewrite (advance_loop is_ident_char) by
    (intros; first [apply ident_cond_in | apply ident_cond_out]; assumption).
  unfold push. cbn [pos cur_line cur_column tokens].
  rewrite slice_take_while. reflexivity.
Qed.

Lemma ws_loop_line (fuel : nat) (st : State) :
  length source - pos st <= fuel ->
  cur_line (while_loop fuel (ws_cond source) (ws_body source) st)
  = (cur_line st
     + Z.of_nat (count_nl (take_while is_space (skipn (pos st) source))))%Z.
Proof.
  revert st; induction fuel as [|fuel IH]; intros st Hfuel; simpl.
  - rewrite skipn_past by lia. simpl. lia.
  - destruct (in_range source st) eqn:Hr.
    + destruct (in_range_cur st Hr) as [c Hc].
      rewrite (ws_cond_in st c Hc).
      rewrite (skipn_cons_nth source (pos st) c Hc). simpl.
      destruct (is_space c); [|simpl; lia].
      rewrite IH by (rewrite ws_body_pos; lia).
      rewrite ws_body_pos. unfold ws_body. rewrite Hc. simpl.
      destruct (c =? NL)%N; simpl; lia.
    + rewrite (ws_cond_out st Hr).
      apply in_range_ge in Hr. rewrite skipn_past by lia. simpl. lia.
Qed.

Lemma ws_loop_tokens (fuel : nat) (st : State) :
  tokens (while_loop fuel (ws_cond source) (ws_body source) st) = tokens st.
Proof.
  apply (while_loop_ind _ _ (fun s => tokens s = tokens st)); [|reflexivity].
  intros s H _. unfold ws_body.
  destruct (is_char NL (cur source s)); exact H.
Qed.

Lemma scan_whitespace_spec (st : State) :
  let w := take_while is_space (skipn (pos st) source) in
  let st' := scan_whitespace source st in
  pos st' = pos st + length w
  /\ cur_line st' = (cur_line st + Z.of_nat (count_nl w))%Z
  /\ exists col,
       tokens st' = tokens st ++ [mkToken Whitespace w (cur_line st') col].
Proof.
  intros w st'. unfold st', scan_whitespace. simpl.
  pose proof (simple_loop_pos is_space _ _ ws_cond_in ws_cond_out ws_body_pos
                (fuel_of source st) st (Nat.le_refl _)) as Hpos.
  rewrite Hpos, ws_loop_tokens.
  rewrite ws_loop_line by (unfold fuel_of; lia).
  rewrite slice_take_while. eauto.
Qed.

End ScannerFacts.

(** ** The string loop *)

Section StringFacts.

Variable source : jsstring.

Lemma find_close_nth (q : char) (l : jsstring) (k : nat) :
  find_close q l = Some k -> nth_error l k = Some q.
Proof.
  assert (H : forall n l k, length l <= n ->
            find_close q l = Some k -> nth_error l k = Some q).
  { clear l k. induction n as [|n IH]; intros [|c l] k Hn; simpl in *;
      try discriminate; try lia.
    destruct (c =? q)%N eqn:Eq.
    - intros [= <-]. apply N.eqb_eq in Eq. subst. reflexivity.
    - destruct (c =? BACKSLASH)%N.
      + destruct l as [|d l]; [discriminate|].
        destruct (find_close q l) as [j|] eqn:Ej; simpl; [|discriminate].
        intros [= <-]. simpl. apply IH; [simpl in Hn; lia | exact Ej].
      + destruct (find_close q l) as [j|] eqn:Ej; simpl; [|discriminate].
        intros [= <-]. simpl. apply IH; [lia | exact Ej]. }
  apply (H (length l)). lia.
Qed.

Lemma firstn_S_nth (l : jsstring) (k : nat) (x : char) :
  nth_error l k = Some x -> firstn (S k) l = firstn k l ++ [x].
Proof.
  revert k; induction l as [|y l IH]; intros [|k] H; simpl in *;
    try discriminate.
  - congruence.
  - f_equal. apply IH. exact H.
Qed.

Lemma string_cond_in (q : char) (st : State) (c : char) :
  cur source st = Some c ->
  string_cond source (Some q) st = negb (c =? q)%N.
Proof.
  intros H. unfold string_cond. rewrite (cur_Some_in_range source st c H), H.
  reflexivity.
Qed.

Lemma string_cond_out (q : option char) (st : State) :
  in_range source st = false -> string_cond source q st = false.
Proof. intros H. unfold string_cond. rewrite H. reflexivity. Qed.

Lemma string_body_pos (st : State) :
  pos st < pos (string_body source st) <= S (S (pos st)).
Proof.
  unfold string_body.
  destruct (is_char BACKSLASH (cur source st)); simpl; lia.
Qed.

Lemma string_loop_decreases (q : option char) (st : State) :
  string_cond source q st = true ->
  fuel_of source (string_body source st) < fuel_of source st.
Proof.
  intros H. unfold fuel_of. pose proof (string_body_pos st).
  destruct (in_range source st) eqn:Hr.
  - apply in_range_lt in Hr. lia.
  - rewrite (string_cond_out q st Hr) in H. discriminate.
Qed.

Lemma string_loop_exit (q : option char) (st : State) :
  string_cond source q
    (while_loop (fuel_of source st) (string_cond source q)
       (string_body source) st) = false.
Proof.
  apply (while_loop_exit _ _ (fuel_of source) (string_loop_decreases q)).
  lia.
Qed.

Lemma string_loop_inv (q : option char) (fuel : nat) (st : State) :
  let st' := while_loop fuel (string_cond source q) (string_body source) st in
  cur_line st' = cur_line st /\ tokens st' = tokens st
  /\ (cur_column st' - Z.of_nat (pos st')
      = cur_column st - Z.of_nat (pos st))%Z
  /\ pos st <= pos st'.
Proof.
  apply (while_loop_ind _ _
    (fun s => cur_line s = cur_line st /\ tokens s = tokens st
              /\ (cur_column s - Z.of_nat (pos s)
                  = cur_column st - Z.of_nat (pos st))%Z
              /\ pos st <= pos s)).
  - intros s (Hl & Ht & Hc & Hp) _. unfold string_body.
    destruct (is_char BACKSLASH (cur source s)); simpl;
      repeat split; auto; lia.
  - repeat split; auto.
Qed.

(** The loop stops on the closing delimiter, or beyond the end of the
    source when there is none. *)
Lemma string_loop_pos (q : char) (fuel : nat) (st : State) :
  length source - pos st <= fuel ->
  let st' :=
    while_loop fuel (string_cond source (Some q)) (string_body source) st in
  match find_close q (skipn (pos st) source) with
  | Some k => pos st' = pos st + k
  | None => length source <= pos st'
  end.
Proof.
  revert st; induction fuel as [|fuel IH]; intros st Hfuel; cbv zeta;
    cbn [while_loop].
  - rewrite skipn_past by lia. cbn [find_close]. lia.
  - destruct (in_range source st) eqn:Hr.
    + destruct (in_range_cur source st Hr) as [c Hc].
      rewrite (string_cond_in q st c Hc).
      rewrite (skipn_cons_nth source (pos st) c Hc). cbn [find_close].
      apply in_range_lt in Hr.
      destruct (c =? q)%N; cbn [negb]; [lia|].
      unfold string_body at 2 4. rewrite Hc. cbn [is_char].
      destruct (c =? BACKSLASH)%N.
      * specialize (IH (advance (advance st))).
        cbv zeta in IH. cbn [pos advance] in IH.
        destruct (skipn (S (pos st)) source) as [|d l] eqn:El.
        -- assert (length source <= S (pos st)).
           { rewrite <- (firstn_skipn (S (pos st)) source), El, app_nil_r.
             rewrite length_firstn. lia. }
           assert (Hm := string_loop_inv (Some q) fuel (advance (advance st))).
           cbv zeta in Hm. cbn [pos advance] in Hm. lia.
        -- assert (El' : skipn (S (S (pos st))) source = l).
           { change (S (S (pos st))) with (1 + S (pos st)).
             rewrite <- skipn_skipn, El. reflexivity. }
           rewrite El' in IH.
           destruct (find_close q l); cbn [option_map]; 
             [rewrite IH; lia | apply IH; lia].
      * specialize (IH (advance st)).
        cbv zeta in IH. cbn [pos advance] in IH.
        destruct (find_close q (skipn (S (pos st)) source)); cbn [option_map];
          [rewrite IH; lia | apply IH; lia].
    + rewrite (string_cond_out (Some q) st Hr).
      apply in_range_ge in Hr. rewrite skipn_past by lia.
      cbn [find_close]. lia.
Qed.

Lemma scan_string_spec (st : State) (q : char) :
  cur source st = Some q ->
  let st' := scan_string source st in
  cur_line st' = cur_line st
  /\ cur_column st' = (cur_column st + Z.of_nat (pos st' - pos st))%Z
  /\ tokens st'
     = tokens st
       ++ [mkToken StringLit (slice source (pos st) (pos st')) (cur_line st)
             (cur_column st)]
  /\ match find_close q (skipn (S (pos st)) source) with
     | Some k => pos st' = pos st + k + 2
     | None => length source < pos st'
     end.
Proof.
  intros Hq st'. unfold st', scan_string. rewrite Hq.
  set (st1 := advance st).
  pose proof (string_loop_inv (Some q) (fuel_of source st1) st1) as Hinv.
  pose proof (string_loop_pos q (fuel_of source st1) st1 (Nat.le_refl _))
    as Hpos.
  cbv zeta in Hinv, Hpos.
  set (st2 := while_loop (fuel_of source st1) (string_cond source (Some q))
                (string_body source) st1) in *.
  destruct Hinv as (Hl & Ht & Hc & Hp).
  unfold push. cbn [pos cur_line cur_column tokens advance].
  subst st1. cbn [pos cur_line cur_column tokens advance] in *.
  rewrite Hl, Ht. repeat split.
  - lia.
  - destruct (find_close q (skipn (S (pos st)) source)); lia.
Qed.

End StringFacts.

(** ** One iteration of the main loop *)

Lemma count_nl_take_while (f : char -> bool) (l : jsstring) :
  (forall c, f c = true -> c <> NL) -> count_nl (take_while f l) = 0.
Proof.
  intros Hf. induction l as [|c l IH]; simpl; [reflexivity|].
  destruct (f c) eqn:E; [|reflexivity]. simpl.
  apply Hf, N.eqb_neq in E. rewrite E, IH. reflexivity.
Qed.

Lemma not_newline_neq (c : char) : not_newline c = true -> c <> NL.
Proof. unfold not_newline. rewrite negb_true_iff. apply N.eqb_neq. Qed.

Lemma is_digit_or_dot_neq (c : char) : is_digit_or_dot c = true -> c <> NL.
Proof. char_arith. Qed.

Lemma is_ident_char_neq (c : char) : is_ident_char c = true -> c <> NL.
Proof. char_arith. Qed.

Lemma operators_no_nl (v : jsstring) :
  has OPERATORS v = true -> count_nl v = 0.
Proof.
  rewrite has_In. simpl.
  intros H; repeat (destruct H as [<-|H]; [reflexivity|]); contradiction.
Qed.

Lemma punctuation_no_nl (v : jsstring) :
  has PUNCTUATION v = true -> count_nl v = 0.
Proof.
  rewrite has_In. simpl.
  intros H; repeat (destruct H as [<-|H]; [reflexivity|]); contradiction.
Qed.

Lemma take_while_head (f : char -> bool) (l : jsstring) (p : nat) (c : char) :
  nth_error l p = Some c -> f c = true ->
  0 < length (take_while f (skipn p l)).
Proof.
  intros H Hf. rewrite (skipn_cons_nth l p c H). simpl. rewrite Hf.
  simpl. lia.
Qed.

Lemma slice_one (l : jsstring) (p : nat) (c : char) :
  nth_error l p = Some c -> slice l p (S p) = [c].
Proof.
  intros H. unfold slice. rewrite (skipn_cons_nth l p c H).
  replace (S p - p) with 1 by lia. reflexivity.
Qed.

Section StepFacts.

Variable source : jsstring.

Lemma step_unrecognized (st : State) :
  unrecognized source st = true -> step source st = advance st.
Proof.
  unfold unrecognized, step. rewrite negb_true_iff.
  repeat rewrite orb_false_iff.
  intros [[[[[[[-> ->] ->] ->] ->] ->] ->] ->]. reflexivity.
Qed.

Lemma step_recognized (st : State) :
  in_range source st = true -> unrecognized source st = false ->
  exists t, emits source st (step source st) t.
Proof.
  intros Hr Hu. destruct (in_range_cur source st Hr) as [c Hc].
  assert (Hn : nth_error source (pos st) = Some c) by exact Hc.
  unfold unrecognized in Hu. apply negb_false_iff in Hu.
  unfold step, emits.
  destruct (is_whitespace_start source st) eqn:E1.
  { destruct (scan_whitespace_spec source st) as (Hp & Hl & col & Ht).
    eexists. rewrite Ht, Hp, Hl. split; [reflexivity|].
    cbn [type value line].
    rewrite slice_take_while. repeat split; try reflexivity.
    unfold is_whitespace_start in E1. rewrite Hc in E1.
    pose proof (take_while_head is_space source (pos st) c Hn E1). lia. }
  destruct (is_comment_start source st) eqn:E2.
  { rewrite scan_comment_spec. eexists.
    cbn [tokens pos cur_line]. split; [reflexivity|].
    cbn [type value line].
    rewrite slice_take_while.
    rewrite (count_nl_take_while _ _ not_newline_neq).
    repeat split; try reflexivity; try lia.
    unfold is_comment_start in E2. rewrite Hc in E2. simpl in E2.
    apply andb_true_iff, proj1, N.eqb_eq in E2. subst c.
    pose proof (take_while_head not_newline source (pos st) SLASH Hn
                  eq_refl). lia. }
  destruct (is_string_start source st) eqn:E3.
  { destruct (scan_string_spec source st c Hc) as (Hl & _ & Ht & Hp).
    eexists. rewrite Ht, Hl. split; [reflexivity|].
    cbn [type value line].
    repeat split; try reflexivity; try lia.
    destruct (find_close c (skipn (S (pos st)) source));
      apply in_range_lt in Hr; lia. }
  destruct (is_number_start source st) eqn:E4.
  { rewrite scan_number_spec. eexists.
    cbn [tokens pos cur_line]. split; [reflexivity|].
    cbn [type value line].
    rewrite slice_take_while.
    rewrite (count_nl_take_while _ _ is_digit_or_dot_neq).
    repeat split; try reflexivity; try lia.
    unfold is_number_start in E4. rewrite Hc in E4. simpl in E4.
    assert (Hd : is_digit_or_dot c = true)
      by (unfold is_digit_or_dot; rewrite E4; reflexivity).
    pose proof (take_while_head is_digit_or_dot source (pos st) c Hn Hd).
    lia. }
  destruct (is_ident_start_at source st) eqn:E5.
  { rewrite scan_ident_spec. eexists.
    cbn [tokens pos cur_line]. split; [reflexivity|].
    cbn [type value line].
    rewrite slice_take_while.
    rewrite (count_nl_take_while _ _ is_ident_char_neq).
    repeat split; try reflexivity; try lia.
    - unfold is_ident_start_at in E5. rewrite Hc in E5. simpl in E5.
      assert (Hd : is_ident_char c = true)
        by (unfold is_ident_char; rewrite E5; reflexivity).
      pose proof (take_while_head is_ident_char source (pos st) c Hn Hd).
      lia.
    - destruct (has KEYWORDS _); lia. }
  destruct (is_two_char_operator source st) eqn:E6.
  { unfold emit2, push, advance. eexists.
    cbn [tokens pos cur_line]. split; [reflexivity|].
    cbn [type value line].
    unfold is_two_char_operator in E6. apply andb_true_iff in E6.
    rewrite (operators_no_nl _ (proj2 E6)).
    repeat split; try reflexivity; try lia.
    unfold two_char. f_equal. lia. }
  destruct (is_operator source st) eqn:E7.
  { unfold emit1, push, advance. eexists.
    cbn [tokens pos cur_line]. split; [reflexivity|].
    cbn [type value line].
    unfold is_operator in E7. rewrite Hc in E7. cbn [has_char] in E7.
    rewrite (slice_one source (pos st) c Hn).
    rewrite (operators_no_nl _ E7).
    repeat split; try reflexivity; try lia. }
  destruct (is_punctuation source st) eqn:E8.
  { unfold emit1, push, advance. eexists.
    cbn [tokens pos cur_line]. split; [reflexivity|].
    cbn [type value line].
    unfold is_punctuation in E8. rewrite Hc in E8. cbn [has_char] in E8.
    rewrite (slice_one source (pos st) c Hn).
    rewrite (punctuation_no_nl _ E8).
    repeat split; try reflexivity; try lia. }
  discriminate.
Qed.

(** Every iteration moves the cursor forward. *)
Lemma step_advances (st : State) :
  in_range source st = true -> pos st < pos (step source st).
Proof.
  intros Hr. destruct (unrecognized source st) eqn:Hu.
  - rewrite (step_unrecognized st Hu). simpl. lia.
  - destruct (step_recognized st Hr Hu) as (t & _ & _ & H & _). exact H.
Qed.

Lemma step_decreases (st : State) :
  in_range source st = true ->
  length source - pos (step source st) < length source - pos st.
Proof.
  intros Hr. pose proof (step_advances st Hr). apply in_range_lt in Hr. lia.
Qed.

End StepFacts.

(** ** The main loop *)

Section RunFacts.

Variable source : jsstring.

Lemma run_exit (fuel : nat) :
  length source <= fuel -> in_range source (run source fuel) = false.
Proof.
  intros H. unfold run.
  apply (while_loop_exit _ _ (fun st => length source - pos st)
           (step_decreases source)).
  simpl. lia.
Qed.

Lemma run_enough (fuel : nat) :
  length source <= fuel -> run source fuel = run source (length source).
Proof.
  intros H. unfold run.
  apply (while_loop_enough _ _ (fun st => length source - pos st)
           (step_decreases source)); simpl; lia.
Qed.

Lemma text_of_snoc (toks : list Token) (t : Token) :
  text_of (toks ++ [t]) = text_of toks ++ value t.
Proof.
  unfold text_of. rewrite map_app, concat_app. simpl.
  rewrite app_nil_r. reflexivity.
Qed.

(** While no character is dropped, the tokens spell the text before the
    cursor. *)
Lemma loop_lossless (fuel : nat) (st : State) :
  text_of (tokens st) = firstn (pos st) source ->
  dropped source fuel st = [] ->
  let st' := while_loop fuel (in_range source) (step source) st in
  text_of (tokens st') = firstn (pos st') source.
Proof.
  revert st; induction fuel as [|fuel IH]; intros st Hinv Hd; simpl.
  - exact Hinv.
  - simpl in Hd. destruct (in_range source st) eqn:Hr; [|exact Hinv].
    destruct (unrecognized source st) eqn:Hu; [discriminate|].
    simpl in Hd. apply IH; [|exact Hd].
    destruct (step_recognized source st Hr Hu) as (t & Ht & Hv & Hp & _).
    rewrite Ht, text_of_snoc, Hinv, Hv. apply firstn_slice. lia.
Qed.

End RunFacts.

Lemma newlines_outside_strings_snoc (toks : list Token) (t : Token) :
  newlines_outside_strings (toks ++ [t])
  = newlines_outside_strings toks + line_feeds t.
Proof.
  unfold newlines_outside_strings.
  rewrite map_app, list_sum_app. simpl. lia.
Qed.

Lemma step_lines_ok (source : jsstring) (st : State) :
  lines_ok st -> in_range source st = true -> lines_ok (step source st).
Proof.
  intros [Hl Ht] Hr. destruct (unrecognized source st) eqn:Hu.
  - rewrite (step_unrecognized source st Hu). split; simpl; assumption.
  - destruct (step_recognized source st Hr Hu)
      as (t & Htok & _ & _ & Hline & Hcur).
    assert (Hnew : cur_line (step source st)
                   = (1 + Z.of_nat (newlines_outside_strings
                                      (tokens st ++ [t])))%Z).
    { rewrite newlines_outside_strings_snoc, Hcur, Hl.
      unfold line_feeds. destruct (type t); lia. }
    split; rewrite Htok; [exact Hnew|].
    intros i u Hu'.
    destruct (Nat.lt_ge_cases i (length (tokens st))) as [Hi|Hi].
    + rewrite nth_error_app1 in Hu' by exact Hi.
      rewrite firstn_app.
      replace (S i - length (tokens st)) with 0 by lia.
      simpl. rewrite app_nil_r. apply Ht. exact Hu'.
    + rewrite nth_error_app2 in Hu' by exact Hi.
      destruct (i - length (tokens st)) as [|k] eqn:Ek; simpl in Hu'.
      * injection Hu' as <-.
        rewrite firstn_all2 by (rewrite length_app; simpl; lia).
        rewrite Hline. exact Hnew.
      * destruct k; discriminate.
Qed.

Lemma run_lines_ok (source : jsstring) (fuel : nat) :
  lines_ok (run source fuel).
Proof.
  unfold run. apply while_loop_ind.
  - intros st H Hr. apply step_lines_ok; assumption.
  - split; [reflexivity|]. intros [|i] t; discriminate.
Qed.

(** ** Which branch an iteration takes *)

Section Dispatch.

Variable source : jsstring.

Lemma slice_two (p : nat) (a b : char) :
  nth_error source p = Some a -> nth_error source (p + 1) = Some b ->
  slice source p (p + 2) = [a; b].
Proof.
  intros Ha Hb. unfold slice. rewrite Nat.add_1_r in Hb.
  rewrite (skipn_cons_nth source p a Ha), (skipn_cons_nth source (S p) b Hb).
  replace (p + 2 - p) with 2 by lia. reflexivity.
Qed.

Lemma next_in_range (st : State) (b : char) :
  nth_error source (pos st + 1) = Some b ->
  (pos st + 1 <? length source) = true.
Proof.
  intros H. apply Nat.ltb_lt. apply nth_error_Some. congruence.
Qed.

Lemma step_string (st : State) (q : char) :
  cur source st = Some q -> q = DQUOTE \/ q = SQUOTE ->
  step source st = scan_string source st.
Proof.
  intros Hc Hq. unfold step, is_whitespace_start, is_comment_start,
    is_string_start. rewrite Hc.
  destruct Hq; subst q; reflexivity.
Qed.

Lemma step_ident (st : State) (c : char) :
  cur source st = Some c -> is_ident_start c = true ->
  step source st = scan_ident source st.
Proof.
  intros Hc Hi.
  assert (H1 : is_space c = false) by char_arith.
  assert (H2 : (c =? SLASH)%N = false) by char_arith.
  assert (H3 : (c =? DQUOTE)%N = false) by char_arith.
  assert (H4 : (c =? SQUOTE)%N = false) by char_arith.
  assert (H5 : is_digit c = false) by char_arith.
  unfold step, is_whitespace_start, is_comment_start, is_string_start,
    is_number_start, is_ident_start_at. rewrite Hc.
  cbn [re_space re_digit re_ident_start re_test is_char].
  rewrite H1, H2, H3, H4, H5, Hi. reflexivity.
Qed.

Lemma step_comment (st : State) :
  cur source st = Some SLASH ->
  nth_error source (pos st + 1) = Some SLASH ->
  step source st = scan_comment source st.
Proof.
  intros Hc Hn. unfold step, is_whitespace_start, is_comment_start.
  rewrite Hc, Hn. reflexivity.
Qed.

Lemma step_whitespace (st : State) (c : char) :
  cur source st = Some c -> is_space c = true ->
  step source st = scan_whitespace source st.
Proof.
  intros Hc Hs. unfold step, is_whitespace_start. rewrite Hc.
  cbn [re_space re_test]. rewrite Hs. reflexivity.
Qed.

Lemma step_slash (st : State) :
  cur source st = Some SLASH ->
  nth_error source (pos st + 1) <> Some SLASH ->
  step source st = emit1 source Operator st.
Proof.
  intros Hc Hn.
  assert (H2 : is_two_char_operator source st = false).
  { unfold is_two_char_operator, two_char.
    destruct (nth_error source (pos st + 1)) as [b|] eqn:Eb.
    - rewrite (slice_two (pos st) SLASH b Hc Eb).
      rewrite andb_false_iff. right. reflexivity.
    - rewrite andb_false_iff. left.
      apply Nat.ltb_ge, nth_error_None. exact Eb. }
  unfold step, is_whitespace_start, is_comment_start, is_string_start,
    is_number_start, is_ident_start_at, is_operator. rewrite H2, Hc.
  destruct (nth_error source (pos st + 1)) as [b|]; [|reflexivity].
  assert (Hb : (b =? SLASH)%N = false)
    by (apply N.eqb_neq; congruence).
  cbn [is_char re_space re_test]. rewrite Hb. reflexivity.
Qed.

Lemma step_bang (st : State) :
  cur source st = Some 33%N ->
  nth_error source (pos st + 1) <> Some 61%N ->
  unrecognized source st = true.
Proof.
  intros Hc Hn.
  assert (H2 : is_two_char_operator source st = false).
  { unfold is_two_char_operator, two_char.
    destruct (nth_error source (pos st + 1)) as [b|] eqn:Eb.
    - rewrite (slice_two (pos st) 33%N b Hc Eb).
      assert (Hb : (b =? 61)%N = false)
        by (apply N.eqb_neq; intros ->; apply Hn; reflexivity).
      rewrite andb_false_iff. right.
      unfold has, OPERATORS. cbn. rewrite Hb. reflexivity.
    - rewrite andb_false_iff. left.
      apply Nat.ltb_ge, nth_error_None. exact Eb. }
  unfold unrecognized, is_whitespace_start, is_comment_start,
    is_string_start, is_number_start, is_ident_start_at, is_operator,
    is_punctuation. rewrite H2, Hc. reflexivity.
Qed.

Lemma step_two_char (st : State) (a b : char) :
  cur source st = Some a -> nth_error source (pos st + 1) = Some b ->
  In [a; b] (List.map js ["=="; "!="; "<="; ">="; "&&"; "||"]%string) ->
  step source st = emit2 source st.
Proof.
  intros Ha Hb Hin.
  assert (H2 : is_two_char_operator source st = true).
  { unfold is_two_char_operator, two_char.
    rewrite (next_in_range st b Hb), (slice_two (pos st) a b Ha Hb).
    simpl in Hin.
    repeat (destruct Hin as [[= <- <-]|Hin]; [reflexivity|]).
    contradiction. }
  unfold step, is_whitespace_start, is_comment_start, is_string_start,
    is_number_start, is_ident_start_at. rewrite H2, Ha.
  simpl in Hin.
  repeat (destruct Hin as [[= <- <-]|Hin]; [reflexivity|]).
  contradiction.
Qed.

End Dispatch.

(** A text made of characters that each start a token loses nothing. *)
Lemma recognized_char_not_dropped (source : jsstring) (st : State)
    (c : char) :
  cur source st = Some c -> recognized_char c = true ->
  unrecognized source st = false.
Proof.
  intros Hc Hrec. unfold unrecognized. apply negb_false_iff.
  unfold is_whitespace_start, is_string_start, is_number_start,
    is_ident_start_at, is_operator, is_punctuation. rewrite Hc.
  cbn [re_space re_digit re_ident_start re_test is_char has_char].
  unfold recognized_char in Hrec.
  destruct (is_space c); [reflexivity|].
  destruct (is_digit c); [repeat rewrite orb_true_r; reflexivity|].
  destruct (is_ident_start c); [repeat rewrite orb_true_r; reflexivity|].
  destruct (c =? DQUOTE)%N; [repeat rewrite orb_true_r; reflexivity|].
  destruct (c =? SQUOTE)%N; [repeat rewrite orb_true_r; reflexivity|].
  destruct (has OPERATORS [c]); [repeat rewrite orb_true_r; reflexivity|].
  destruct (has PUNCTUATION [c]); [repeat rewrite orb_true_r; reflexivity|].
  discriminate.
Qed.

Lemma recognized_chars_none_dropped (source : jsstring) :
  forallb recognized_char source = true ->
  unrecognized_positions source = [].
Proof.
  intros Hall. unfold unrecognized_positions.
  generalize (length source) as fuel. generalize init as st.
  intros st fuel; revert st; induction fuel as [|fuel IH]; intros st; simpl;
    [reflexivity|].
  destruct (in_range source st) eqn:Hr; [|reflexivity].
  destruct (in_range_cur source st Hr) as [c Hc].
  rewrite (recognized_char_not_dropped source st c Hc).
  - apply IH.
  - rewrite forallb_forall in Hall. apply Hall.
    apply (nth_error_In source (pos st)). exact Hc.
Qed.

(** X4 (a sufficient condition on the characters).  When every character
    of the source is a blank, a digit, a letter, an underscore, a quote, a
    one-character operator or a punctuation mark, nothing is dropped and
    the values of the tokens, joined in order, are the source. *)
Lemma recognized_chars_lossless (source : jsstring) :
  forallb recognized_char source = true ->
  text_of (tokenize source) = source.
Proof.
  intros Hall. unfold tokenize, run.
  rewrite (loop_lossless source (length source) init eq_refl
             (recognized_chars_none_dropped source Hall)).
  apply firstn_all2.
  apply in_range_ge. apply (run_exit source (length source)). lia.
Qed.

Lemma recognized_chars_lossless_witness :
  forallb recognized_char (js "f(x) = 'a' + 3.5 / y_1;") = true
  /\ text_of (tokenize (js "f(x) = 'a' + 3.5 / y_1;"))
     = js "f(x) = 'a' + 3.5 / y_1;".
Proof.
  split; [reflexivity|].
  apply (recognized_chars_lossless (js "f(x) = 'a' + 3.5 / y_1;")).
  reflexivity.
Defined.

(** A dropped character is missing from the text of the tokens. *)
Example at_sign_dropped :
  unrecognized_positions (js "a @ b") = [2]
  /\ text_of (tokenize (js "a @ b")) = js "a  b"
  /\ List.map value (stripWhitespace (tokenize (js "a @ b")))
     = [js "a"; js "b"].
Proof. repeat split. Qed.

(** The example of the README. *)
Example readme_example :
  tokenize (js "const x = 42;")
  = [mkToken Keyword (js "const") 1 1;
     mkToken Whitespace (js " ") 1 6;
     mkToken Identifier (js "x") 1 7;
     mkToken Whitespace (js " ") 1 8;
     mkToken Operator (js "=") 1 9;
     mkToken Whitespace (js " ") 1 10;
     mkToken Number (js "42") 1 11;
     mkToken Punctuation (js ";") 1 13].
Proof. reflexivity. Qed.

(** An escaped quote does not end a string. *)
Example escaped_quotes :
  tokenize (js "'say \'hi\''")
  = [mkToken StringLit (js "'say \'hi\''") 1 1].
Proof. reflexivity. Qed.

(** ** The properties of the specification *)

(** C1 (losslessness).  When the scan of [source] drops no character, i.e.
    no iteration of the main loop reaches the unknown-character branch,
    joining the values of the tokens of [tokenize source], in order, gives
    [source] back, whitespace and comments included; and the empty string
    yields no token. *)
Theorem tokenize_lossless (source : jsstring) :
  unrecognized_positions source = [] ->
  text_of (tokenize source) = source /\ tokenize (js "") = [].
Proof.
  intros Hd. split; [|reflexivity].
  unfold tokenize, run.
  rewrite (loop_lossless source (length source) init eq_refl Hd).
  apply firstn_all2.
  apply in_range_ge. apply (run_exit source (length source)). lia.
Qed.

Lemma tokenize_lossless_witness :
  unrecognized_positions (js "if (x >= 10) { y = 'a b'; } // done") = []
  /\ text_of (tokenize (js "if (x >= 10) { y = 'a b'; } // done"))
     = js "if (x >= 10) { y = 'a b'; } // done".
Proof.
  split; [reflexivity|].
  apply (tokenize_lossless (js "if (x >= 10) { y = 'a b'; } // done")).
  reflexivity.
Defined.

(** C2 (token positions), evaluated where the code departs from it.  In
    the source [a], line feed, [b] the whitespace token starts at offset 1,
    which is line 1, column 2; the scanner reports line 2, column 0: the
    line is read after the run and the column is the column after the run
    minus the length of the run. *)
Theorem whitespace_position_after_newline :
  let source := js ("a" ++ nl ++ "b") in
  tokenize source
  = [mkToken Identifier (js "a") 1 1;
     mkToken Whitespace [NL] 2 0;
     mkToken Identifier (js "b") 2 1]
  /\ line_at source 1 = 1%Z /\ column_at source 1 = 2%Z.
Proof. repeat split. Qed.

(** C3 (filters).  [stripComments] and [stripWhitespace] keep the tokens
    of the other kinds in their order; each is idempotent, the two commute,
    and the empty list is mapped to the empty list. *)
Theorem strip_filters_idempotent_commute (t u : list Token) :
  stripComments (stripComments t) = stripComments t
  /\ stripWhitespace (stripWhitespace t) = stripWhitespace t
  /\ stripWhitespace (stripComments t) = stripComments (stripWhitespace t)
  /\ stripComments [] = [] /\ stripWhitespace [] = []
  /\ stripComments (t ++ u) = stripComments t ++ stripComments u
  /\ stripWhitespace (t ++ u) = stripWhitespace t ++ stripWhitespace u
  /\ (forall x, In x (stripComments t) <-> In x t /\ type x <> Comment)
  /\ (forall x, In x (stripWhitespace t) <-> In x t /\ type x <> Whitespace).
Proof.
  unfold stripComments, stripWhitespace.
  repeat split; try reflexivity; try apply filter_app.
  - induction t as [|x t IH]; simpl; [reflexivity|].
    destruct (negb _) eqn:E; simpl; [rewrite E|]; congruence.
  - induction t as [|x t IH]; simpl; [reflexivity|].
    destruct (negb _) eqn:E; simpl; [rewrite E|]; congruence.
  - induction t as [|x t IH]; simpl; [reflexivity|].
    destruct (type x) eqn:E; simpl; rewrite ?E; simpl; congruence.
  - apply filter_In in H. tauto.
  - apply filter_In in H. destruct H as [_ H].
    intros E. rewrite E in H. discriminate.
  - intros [H1 H2]. apply filter_In. split; [exact H1|].
    destruct (type x); try reflexivity. contradiction.
  - apply filter_In in H. tauto.
  - apply filter_In in H. destruct H as [_ H].
    intros E. rewrite E in H. discriminate.
  - intros [H1 H2]. apply filter_In. split; [exact H1|].
    destruct (type x); try reflexivity. contradiction.
Qed.

(** C4 (string literals).  At a double or single quote [q] the iteration
    emits exactly one String token, placed at the current line and column.
    With [rest] the source after the opening quote: when [rest] has a
    closing delimiter at offset [k] (the first [q] not escaped by a
    backslash, [find_close]), the text is [q], the [k] characters before
    it, and [q], and the cursor ends after the closing quote; when it has
    none, the text is the whole remainder of the source and the cursor ends
    beyond it.  A backslash makes the search skip the character that
    follows, whatever it is, so an escaped delimiter closes nothing. *)
Theorem string_literal_token (source : jsstring) (st : State) (q : char) :
  cur source st = Some q -> q = DQUOTE \/ q = SQUOTE ->
  let rest := skipn (S (pos st)) source in
  let st' := step source st in
  (forall c l, find_close q (BACKSLASH :: c :: l)
               = option_map (fun k => S (S k)) (find_close q l))
  /\ exists text,
       tokens st'
       = tokens st ++ [mkToken StringLit text (cur_line st) (cur_column st)]
       /\ match find_close q rest with
          | Some k =>
              text = q :: firstn k rest ++ [q] /\ pos st' = pos st + k + 2
          | None => text = skipn (pos st) source /\ length source < pos st'
          end.
Proof.
  intros Hc Hq rest st'. split.
  { intros c l. destruct Hq; subst q; reflexivity. }
  unfold st'. rewrite (step_string source st q Hc Hq).
  destruct (scan_string_spec source st q Hc) as (_ & _ & Ht & Hp).
  eexists. split; [exact Ht|]. fold rest in Hp.
  assert (Hs : skipn (pos st) source = q :: rest)
    by (apply skipn_cons_nth; exact Hc).
  destruct (find_close q rest) as [k|] eqn:Ek.
  - split; [|exact Hp]. rewrite Hp. unfold slice. rewrite Hs.
    replace (pos st + k + 2 - pos st) with (S (S k)) by lia.
    cbn [firstn]. f_equal. apply firstn_S_nth.
    apply find_close_nth. exact Ek.
  - split; [|exact Hp]. unfold slice. apply firstn_all2.
    rewrite length_skipn. lia.
Qed.

Lemma string_literal_token_witness :
  let source := js "x = 'it\'s' + 'open" in
  (cur source (mkState 4 1 5 []) = Some SQUOTE
   /\ exists text,
        tokens (step source (mkState 4 1 5 []))
        = [] ++ [mkToken StringLit text 1 5]
        /\ text = SQUOTE :: firstn 5 (skipn 5 source) ++ [SQUOTE]
        /\ pos (step source (mkState 4 1 5 [])) = 4 + 5 + 2)
  /\ (cur source (mkState 14 1 15 []) = Some SQUOTE
      /\ exists text,
           tokens (step source (mkState 14 1 15 []))
           = [] ++ [mkToken StringLit text 1 15]
           /\ text = skipn 14 source
           /\ length source < pos (step source (mkState 14 1 15 []))).
Proof.
  intros source. split; (split; [reflexivity|]).
  - exact (proj2 (string_literal_token source (mkState 4 1 5 []) SQUOTE
                    eq_refl (or_intror eq_refl))).
  - exact (proj2 (string_literal_token source (mkState 14 1 15 []) SQUOTE
                    eq_refl (or_intror eq_refl))).
Defined.

(** C5 (identifiers and keywords).  At a letter or underscore the
    iteration consumes the longest run [w] of letters, digits and
    underscores and emits it as one token: a Keyword when [w] is one of the
    nine keywords, an Identifier otherwise.  [iffy] is one Identifier and
    [if] is one Keyword. *)
Theorem identifier_or_keyword (source : jsstring) (st : State) (c : char) :
  cur source st = Some c -> is_ident_start c = true ->
  let w := take_while is_ident_char (skipn (pos st) source) in
  let keywords :=
    List.map js
      ["if"; "else"; "while"; "for"; "return"; "function"; "const"; "let";
       "var"]%string in
  (exists ty,
     step source st
     = mkState (pos st + length w) (cur_line st)
         (cur_column st + Z.of_nat (length w))
         (tokens st ++ [mkToken ty w (cur_line st) (cur_column st)])
     /\ (ty = Keyword <-> In w keywords)
     /\ (ty = Identifier <-> ~ In w keywords))
  /\ hd_error w = Some c
  /\ forallb is_ident_char w = true
  /\ (forall d, nth_error source (pos st + length w) = Some d ->
        is_ident_char d = false)
  /\ tokenize (js "iffy") = [mkToken Identifier (js "iffy") 1 1]
  /\ tokenize (js "if") = [mkToken Keyword (js "if") 1 1].
Proof.
  intros Hc Hi w keywords. repeat split.
  - rewrite (step_ident source st c Hc Hi), scan_ident_spec. fold w.
    eexists. split; [reflexivity|].
    pose proof (has_In KEYWORDS w) as Hk. fold keywords. 
    change KEYWORDS with keywords in *.
    destruct (has keywords w).
    + split; split; intros; try reflexivity; try discriminate.
      * apply Hk. reflexivity.
      * exfalso. apply H. apply Hk. reflexivity.
    + split; split; intros; try reflexivity; try discriminate.
      * apply Hk in H. discriminate.
      * intros H'. apply Hk in H'. discriminate.
  - unfold w. rewrite (skipn_cons_nth source (pos st) c Hc). simpl.
    assert (Hd : is_ident_char c = true)
      by (unfold is_ident_char; rewrite Hi; reflexivity).
    rewrite Hd. reflexivity.
  - apply take_while_all.
  - intros d Hd. rewrite <- nth_error_skipn in Hd.
    exact (take_while_stop _ _ _ Hd).
Qed.

Lemma identifier_or_keyword_witness :
  let source := js "x = while1 + 3" in
  let st := mkState 4 1 5 [] in
  cur source st = Some 119%N /\ is_ident_start 119%N = true
  /\ exists ty,
       step source st
       = mkState (4 + 6) 1 (5 + Z.of_nat 6)
           ([] ++ [mkToken ty (js "while1") 1 5])
       /\ (ty = Keyword <-> In (js "while1") KEYWORDS)
       /\ (ty = Identifier <-> ~ In (js "while1") KEYWORDS).
Proof.
  intros source st. split; [reflexivity|]. split; [reflexivity|].
  exact (proj1 (identifier_or_keyword source st 119%N eq_refl eq_refl)).
Defined.

(** C6 (two-character operators).  When the characters at the cursor and
    after it form one of [==], [!=], [<=], [>=], [&&], [||], the iteration
    emits one Operator token of these two characters and moves the cursor
    and the column by two; no earlier branch can apply to such a pair.
    [a<=b] scans to the identifier [a], the operator [<=] and the
    identifier [b]. *)
Theorem two_char_operator (source : jsstring) (st : State) (a b : char) :
  cur source st = Some a -> nth_error source (pos st + 1) = Some b ->
  In [a; b] (List.map js ["=="; "!="; "<="; ">="; "&&"; "||"]%string) ->
  step source st
  = mkState (pos st + 2) (cur_line st) (cur_column st + 2)
      (tokens st ++ [mkToken Operator [a; b] (cur_line st) (cur_column st)])
  /\ tokenize (js "a<=b")
     = [mkToken Identifier (js "a") 1 1;
        mkToken Operator (js "<=") 1 2;
        mkToken Identifier (js "b") 1 4].
Proof.
  intros Ha Hb Hin. split; [|reflexivity].
  rewrite (step_two_char source st a b Ha Hb Hin).
  unfold emit2, push, advance, two_char.
  cbn [pos cur_line cur_column tokens].
  rewrite (slice_two source (pos st) a b Ha Hb).
  f_equal; lia.
Qed.

Lemma two_char_operator_witness :
  let source := js "x>=y" in
  let st := mkState 1 1 2 [mkToken Identifier (js "x") 1 1] in
  step source st
  = mkState 3 1 4
      [mkToken Identifier (js "x") 1 1; mkToken Operator (js ">=") 1 2].
Proof.
  intros source st.
  exact (proj1 (two_char_operator source st 62%N 61%N eq_refl eq_refl
                  (or_intror (or_intror (or_intror (or_introl eq_refl)))))).
Defined.

(** C7 (comments and division).  At a slash followed by a slash the
    iteration emits exactly one Comment token: the text [w] from the cursor
    up to, and not including, the next line feed, or up to the end of the
    source.  A line feed that ends the comment is the first character of
    the whitespace token emitted by the next iteration.  At a slash not
    followed by a slash the iteration emits the one-character Operator
    token instead. *)
Theorem comment_or_division (source : jsstring) (st : State) :
  cur source st = Some SLASH ->
  let w := take_while not_newline (skipn (pos st) source) in
  (nth_error source (pos st + 1) = Some SLASH ->
   step source st
   = mkState (pos st + length w) (cur_line st)
       (cur_column st + Z.of_nat (length w))
       (tokens st ++ [mkToken Comment w (cur_line st) (cur_column st)])
   /\ firstn 2 w = [SLASH; SLASH]
   /\ ~ In NL w
   /\ (pos st + length w = length source
       \/ nth_error source (pos st + length w) = Some NL)
   /\ (nth_error source (pos st + length w) = Some NL ->
       exists ws l c,
         tokens (step source (step source st))
         = tokens (step source st) ++ [mkToken Whitespace (NL :: ws) l c]))
  /\ (nth_error source (pos st + 1) <> Some SLASH ->
      step source st
      = mkState (S (pos st)) (cur_line st) (cur_column st + 1)
          (tokens st
           ++ [mkToken Operator [SLASH] (cur_line st) (cur_column st)])).
Proof.
  intros Hc w. split.
  - intros Hn.
    assert (Hstep : step source st
                    = mkState (pos st + length w) (cur_line st)
                        (cur_column st + Z.of_nat (length w))
                        (tokens st
                         ++ [mkToken Comment w (cur_line st)
                               (cur_column st)])).
    { rewrite (step_comment source st Hc Hn). apply scan_comment_spec. }
    split; [exact Hstep|]. split; [|split; [|split]].
    + unfold w. rewrite Nat.add_1_r in Hn.
      rewrite (skipn_cons_nth source (pos st) SLASH Hc).
      rewrite (skipn_cons_nth source (S (pos st)) SLASH Hn). reflexivity.
    + intros Hin.
      pose proof (take_while_all not_newline (skipn (pos st) source)) as Ha.
      rewrite forallb_forall in Ha. apply Ha in Hin. discriminate.
    + destruct (nth_error source (pos st + length w)) as [d|] eqn:Ed.
      * right. rewrite <- nth_error_skipn in Ed.
        apply take_while_stop in Ed. f_equal.
        unfold not_newline in Ed. apply negb_false_iff, N.eqb_eq in Ed.
        exact Ed.
      * left. apply nth_error_None in Ed.
        pose proof (take_while_length not_newline (skipn (pos st) source)).
        rewrite length_skipn in H. fold w in H.
        assert (pos st < length source)
          by (apply nth_error_Some; unfold cur in Hc; congruence).
        lia.
    + intros Hnl. rewrite Hstep.
      set (st1 := mkState _ _ _ _).
      assert (Hc1 : cur source st1 = Some NL) by exact Hnl.
      rewrite (step_whitespace source st1 NL Hc1 eq_refl).
      destruct (scan_whitespace_spec source st1) as (_ & _ & col & Ht).
      rewrite Ht. rewrite (skipn_cons_nth source (pos st1) NL Hc1).
      simpl. eauto.
  - intros Hn. rewrite (step_slash source st Hc Hn).
    unfold emit1, push, advance. cbn [pos cur_line cur_column tokens].
    rewrite (slice_one source (pos st) SLASH Hc). reflexivity.
Qed.

Lemma comment_or_division_witness :
  let source := js ("a / b // c" ++ nl ++ "d") in
  (cur source (mkState 6 1 7 []) = Some SLASH
   /\ nth_error source (6 + 1) = Some SLASH
   /\ step source (mkState 6 1 7 [])
      = mkState (6 + 4) 1 (7 + Z.of_nat 4)
          ([] ++ [mkToken Comment (js "// c") 1 7]))
  /\ (cur source (mkState 2 1 3 []) = Some SLASH
      /\ nth_error source (2 + 1) <> Some SLASH
      /\ step source (mkState 2 1 3 [])
         = mkState 3 1 (3 + 1) ([] ++ [mkToken Operator [SLASH] 1 3])).
Proof.
  intros source. split; (split; [reflexivity|split]).
  - reflexivity.
  - exact (proj1 (proj1 (comment_or_division source (mkState 6 1 7 [])
                           eq_refl) eq_refl)).
  - discriminate.
  - apply (proj2 (comment_or_division source (mkState 2 1 3 []) eq_refl)).
    discriminate.
Defined.

(** C8 (termination).  Every iteration of the main loop moves the cursor
    forward by at least one character; the iteration on an unknown
    character moves it by exactly one and emits nothing.  Hence
    [length source] iterations are enough: the loop then stops because the
    cursor has reached the end of the source, and more fuel changes
    nothing.  The inner loops stop by their own conditions as well. *)
Theorem tokenize_terminates (source : jsstring) :
  (forall st, in_range source st = true -> pos st < pos (step source st))
  /\ (forall st, unrecognized source st = true ->
        pos (step source st) = S (pos st)
        /\ tokens (step source st) = tokens st)
  /\ in_range source (run source (length source)) = false
  /\ (forall fuel, length source <= fuel ->
        run source fuel = run source (length source))
  /\ (forall st,
        ws_cond source
          (while_loop (fuel_of source st) (ws_cond source) (ws_body source)
             st) = false
        /\ comment_cond source
             (while_loop (fuel_of source st) (comment_cond source) advance
                st) = false
        /\ number_cond source
             (while_loop (fuel_of source st) (number_cond source) advance
                st) = false
        /\ ident_cond source
             (while_loop (fuel_of source st) (ident_cond source) advance
                st) = false
        /\ forall q,
             string_cond source q
               (while_loop (fuel_of source st) (string_cond source q)
                  (string_body source) st) = false).
Proof.
  split; [exact (step_advances source)|].
  split.
  { intros st Hu. rewrite (step_unrecognized source st Hu).
    split; reflexivity. }
  split; [apply run_exit; lia|].
  split; [exact (run_enough source)|].
  intros st. repeat split.
  - apply simple_loop_exit; [apply ws_cond_out | apply ws_body_pos].
  - apply simple_loop_exit; [apply comment_cond_out | reflexivity].
  - apply simple_loop_exit; [apply number_cond_out | reflexivity].
  - apply simple_loop_exit; [apply ident_cond_out | reflexivity].
  - intros q. apply string_loop_exit.
Qed.

Lemma tokenize_terminates_witness :
  let source := js "a @ 'b" in
  (in_range source (mkState 2 1 3 []) = true
   /\ pos (mkState 2 1 3 []) < pos (step source (mkState 2 1 3 [])))
  /\ (unrecognized source (mkState 2 1 3 []) = true
      /\ pos (step source (mkState 2 1 3 [])) = 3
      /\ tokens (step source (mkState 2 1 3 [])) = [])
  /\ run source 100 = run source (length source).
Proof.
  intros source.
  pose proof (tokenize_terminates source) as (Hadv & Hskip & _ & Hfuel & _).
  split; [split; [reflexivity | apply Hadv; reflexivity]|].
  split; [split; [reflexivity | apply Hskip; reflexivity]|].
  apply Hfuel. simpl. lia.
Defined.

(** C9 (newlines inside strings).  The string branch leaves the line
    counter alone and adds to the column counter the distance the cursor
    moves; so the line of every token is one plus the number of line feeds
    in the tokens up to and including it that are not strings: the line
    feeds inside string tokens are never counted. *)
Theorem string_newlines_not_counted (source : jsstring) :
  (forall st q, cur source st = Some q -> q = DQUOTE \/ q = SQUOTE ->
     cur_line (step source st) = cur_line st
     /\ cur_column (step source st)
        = (cur_column st + Z.of_nat (pos (step source st) - pos st))%Z)
  /\ (forall i t, nth_error (tokenize source) i = Some t ->
        line t
        = (1 + Z.of_nat (newlines_outside_strings
                           (firstn (S i) (tokenize source))))%Z).
Proof.
  split.
  - intros st q Hc Hq. rewrite (step_string source st q Hc Hq).
    destruct (scan_string_spec source st q Hc) as (Hl & Hcol & _).
    split; assumption.
  - intros i t. apply (run_lines_ok source (length source)).
Qed.

Lemma string_newlines_not_counted_witness :
  let source := js ("'a" ++ nl ++ "b' c" ++ nl ++ "d") in
  (nth_error (tokenize source) 2 = Some (mkToken Identifier (js "c") 1 7)
   /\ line (mkToken Identifier (js "c") 1 7)
      = (1 + Z.of_nat (newlines_outside_strings
                         (firstn 3 (tokenize source))))%Z)
  /\ (cur source init = Some SQUOTE
      /\ cur_line (step source init) = 1%Z
      /\ cur_column (step source init)
         = (1 + Z.of_nat (pos (step source init) - 0))%Z).
Proof.
  intros source.
  pose proof (string_newlines_not_counted source) as [Hstr Hline].
  split; (split; [reflexivity|]).
  - apply (Hline 2). reflexivity.
  - apply (Hstr init SQUOTE); [reflexivity | right; reflexivity].
Defined.

(** C10 (a lone exclamation mark).  An exclamation mark that is not
    followed by an equals sign is an unknown character: it is neither an
    operator nor a punctuation mark by itself, the iteration emits no token
    and moves the cursor and the column by one.  [tokenize] of the single
    character [!] is empty. *)
Theorem lone_bang_dropped (source : jsstring) (st : State) :
  cur source st = Some 33%N ->
  nth_error source (pos st + 1) <> Some 61%N ->
  unrecognized source st = true
  /\ step source st
     = mkState (S (pos st)) (cur_line st) (cur_column st + 1) (tokens st)
  /\ has OPERATORS (js "!") = false
  /\ has PUNCTUATION (js "!") = false
  /\ (forall v, In v OPERATORS -> In 33%N v -> v = js "!=")
  /\ tokenize (js "!") = [].
Proof.
  intros Hc Hn. pose proof (step_bang source st Hc Hn) as Hu.
  split; [exact Hu|]. split; [exact (step_unrecognized source st Hu)|].
  repeat split.
  intros v Hv. simpl in Hv.
  repeat (destruct Hv as [<-|Hv];
          [simpl; intros H;
           repeat (destruct H as [H|H]; try discriminate H);
           try reflexivity; try contradiction|]).
  contradiction.
Qed.

Lemma lone_bang_dropped_witness :
  let source := js "a ! b" in
  let st := mkState 2 1 3 [mkToken Identifier (js "a") 1 1] in
  cur source st = Some 33%N
  /\ step source st = mkState 3 1 4 [mkToken Identifier (js "a") 1 1].
Proof.
  intros source st. split; [reflexivity|].
  apply (lone_bang_dropped source st); [reflexivity | discriminate].
Defined.

(** ** Further properties of the scanner *)

Lemma take_while_cons (f : char -> bool) (l : jsstring) (p : nat) (c : char) :
  nth_error l p = Some c -> f c = true ->
  take_while f (skipn p l) = c :: take_while f (skipn (S p) l).
Proof.
  intros H Hf. rewrite (skipn_cons_nth l p c H). simpl. rewrite Hf.
  reflexivity.
Qed.

Lemma column_after_app (col : Z) (a b : jsstring) :
  column_after col (a ++ b) = column_after (column_after col a) b.
Proof.
  revert col; induction a as [|c a IH]; intros col; simpl; [reflexivity|].
  apply IH.
Qed.

Lemma count_nl_app (a b : jsstring) :
  count_nl (a ++ b) = count_nl a + count_nl b.
Proof. induction a as [|c a IH]; simpl; [reflexivity | lia]. Qed.

Lemma column_after_no_nl (col : Z) (l : jsstring) :
  count_nl l = 0 -> column_after col l = (col + Z.of_nat (length l))%Z.
Proof.
  revert col; induction l as [|c l IH]; intros col H; simpl in *; [lia|].
  destruct (c =? NL)%N; [discriminate|].
  rewrite IH by exact H. lia.
Qed.

Lemma column_after_bounds (col : Z) (l : jsstring) :
  (1 <= col)%Z ->
  (1 <= column_after col l <= col + Z.of_nat (length l))%Z.
Proof.
  revert col; induction l as [|c l IH]; intros col H; simpl; [lia|].
  destruct (c =? NL)%N.
  - specialize (IH 1%Z). lia.
  - specialize (IH (col + 1)%Z). lia.
Qed.

Lemma column_after_nl (col : Z) (l : jsstring) :
  0 < count_nl l -> (column_after col l <= Z.of_nat (length l))%Z.
Proof.
  revert col; induction l as [|c l IH]; intros col H; simpl in *; [lia|].
  destruct (c =? NL)%N.
  - pose proof (column_after_bounds 1 l). lia.
  - specialize (IH (col + 1)%Z H). lia.
Qed.

Lemma forallb_no_nl (f : char -> bool) (l : jsstring) :
  (forall c, f c = true -> c <> NL) -> forallb f l = true -> count_nl l = 0.
Proof.
  intros Hf. induction l as [|c l IH]; simpl; [reflexivity|].
  rewrite andb_true_iff. intros [Hc Hl].
  apply Hf, N.eqb_neq in Hc. rewrite Hc, (IH Hl). reflexivity.
Qed.

Lemma slice_length (l : jsstring) (a b : nat) :
  b <= length l -> length (slice l a b) = b - a.
Proof.
  intros H. unfold slice. rewrite length_firstn, length_skipn. lia.
Qed.

Lemma slice_app (l : jsstring) (a b c : nat) :
  a <= b -> b <= c -> slice l a b ++ slice l b c = slice l a c.
Proof.
  intros Hab Hbc. unfold slice.
  rewrite <- (firstn_skipn (b - a) (firstn (c - a) (skipn a l))).
  rewrite firstn_firstn, Nat.min_l by lia.
  rewrite skipn_firstn_comm, skipn_skipn.
  replace (b - a + a) with b by lia.
  replace (c - a - (b - a)) with (c - b) by lia. reflexivity.
Qed.

Section Placement.

Variable source : jsstring.

(** The whitespace loop as a whole. *)
Lemma ws_loop_state (fuel : nat) (st : State) :
  length source - pos st <= fuel ->
  let w := take_while is_space (skipn (pos st) source) in
  while_loop fuel (ws_cond source) (ws_body source) st
  = mkState (pos st + length w)
      (cur_line st + Z.of_nat (count_nl w))
      (column_after (cur_column st) w) (tokens st).
Proof.
  revert st; induction fuel as [|fuel IH]; intros st Hfuel; cbv zeta;
    cbn [while_loop].
  - rewrite skipn_past by lia. destruct st; simpl; f_equal; lia.
  - destruct (in_range source st) eqn:Hr.
    + destruct (in_range_cur source st Hr) as [c Hc].
      rewrite (ws_cond_in source st c Hc).
      rewrite (skipn_cons_nth source (pos st) c Hc).
      cbn [take_while]. destruct (is_space c).
      * rewrite IH by (rewrite ws_body_pos; lia). cbv zeta.
        rewrite ws_body_pos. unfold ws_body. rewrite Hc.
        cbn [is_char length count_nl column_after].
        destruct (c =? NL)%N; cbn [pos cur_line cur_column tokens];
          f_equal; lia.
      * destruct st; simpl; f_equal; lia.
    + rewrite (ws_cond_out source st Hr).
      apply in_range_ge in Hr. rewrite skipn_past by lia.
      destruct st; simpl; f_equal; lia.
Qed.

Lemma scan_whitespace_state (st : State) :
  let w := take_while is_space (skipn (pos st) source) in
  let l := (cur_line st + Z.of_nat (count_nl w))%Z in
  let c := column_after (cur_column st) w in
  scan_whitespace source st
  = mkState (pos st + length w) l c
      (tokens st
       ++ [mkToken Whitespace w l (c - Z.of_nat (length w))]).
Proof.
  cbv zeta. unfold scan_whitespace.
  rewrite ws_loop_state by (unfold fuel_of; lia).
  unfold push. cbn [pos cur_line cur_column tokens].
  rewrite slice_take_while.
  replace (pos st + _ - pos st) with
    (length (take_while is_space (skipn (pos st) source))) by lia.
  reflexivity.
Qed.

Lemma find_close_firstn (q : char) (l : jsstring) (k : nat) :
  find_close q l = Some k -> find_close q (firstn (S k) l) = Some k.
Proof.
  assert (H : forall n l k, length l <= n ->
            find_close q l = Some k ->
            find_close q (firstn (S k) l) = Some k).
  { clear l k. induction n as [|n IH]; intros [|c l] k Hn;
      cbn [find_close length] in *; try discriminate; try lia.
    destruct (c =? q)%N eqn:Eq.
    - intros [= <-]. rewrite firstn_cons. cbn [find_close].
      rewrite Eq. reflexivity.
    - destruct (c =? BACKSLASH)%N eqn:Eb.
      + destruct l as [|d l]; [discriminate|].
        destruct (find_close q l) as [j|] eqn:Ej; cbn [option_map];
          [|discriminate].
        intros [= <-]. rewrite !firstn_cons. cbn [find_close].
        rewrite Eq, Eb.
        rewrite (IH l j) by (cbn [length] in Hn; lia || exact Ej).
        reflexivity.
      + destruct (find_close q l) as [j|] eqn:Ej; cbn [option_map];
          [|discriminate].
        intros [= <-]. rewrite !firstn_cons. cbn [find_close].
        rewrite Eq, Eb.
        rewrite (IH l j) by (lia || exact Ej). reflexivity. }
  apply (H (length l)). lia.
Qed.

(** The text of a string token. *)
Lemma scan_string_text (st : State) (q : char) :
  cur source st = Some q ->
  let rest := skipn (S (pos st)) source in
  slice source (pos st) (pos (scan_string source st))
  = match find_close q rest with
    | Some k => q :: firstn (S k) rest
    | None => q :: rest
    end.
Proof.
  intros Hc rest.
  destruct (scan_string_spec source st q Hc) as (_ & _ & _ & Hp).
  fold rest in Hp.
  assert (Hs : skipn (pos st) source = q :: rest)
    by (apply skipn_cons_nth; exact Hc).
  unfold slice. rewrite Hs.
  destruct (find_close q rest) as [k|].
  - rewrite Hp. replace (pos st + k + 2 - pos st) with (S (S k)) by lia.
    reflexivity.
  - apply firstn_all2. rewrite <- Hs, length_skipn. lia.
Qed.

Lemma string_text_closes (q : char) (rest : jsstring) :
  closes_at_end q
    match find_close q rest with
    | Some k => firstn (S k) rest
    | None => rest
    end = true.
Proof.
  unfold closes_at_end. destruct (find_close q rest) as [k|] eqn:Ek.
  - rewrite (find_close_firstn q rest k Ek).
    apply Nat.eqb_eq. apply firstn_length_le.
    apply find_close_nth in Ek.
    assert (nth_error rest k <> None) by congruence.
    apply nth_error_Some in H. lia.
  - rewrite Ek. reflexivity.
Qed.

End Placement.

Section Places.

Variable source : jsstring.

Lemma step_places (st : State) :
  in_range source st = true -> unrecognized source st = false ->
  exists t, places source st (step source st) t.
Proof.
  intros Hr Hu. destruct (in_range_cur source st Hr) as [c Hc].
  assert (Hn : nth_error source (pos st) = Some c) by exact Hc.
  unfold unrecognized in Hu. apply negb_false_iff in Hu.
  unfold step, places.
  destruct (is_whitespace_start source st) eqn:E1.
  { unfold is_whitespace_start in E1. rewrite Hc in E1.
    cbn [re_space re_test] in E1.
    rewrite scan_whitespace_state. eexists.
    cbn [tokens pos cur_line cur_column]. split; [reflexivity|].
    cbn [type value line column]. rewrite slice_take_while.
    pose proof (take_while_head is_space source (pos st) c Hn E1).
    repeat split; try reflexivity; try lia.
    unfold well_formed. cbn [type value].
    rewrite take_while_all, andb_true_r.
    rewrite (take_while_cons is_space source (pos st) c Hn E1).
    exact E1. }
  destruct (is_comment_start source st) eqn:E2.
  { unfold is_comment_start in E2. rewrite Hc in E2.
    apply andb_true_iff in E2. destruct E2 as [Ea Eb].
    apply N.eqb_eq in Ea. subst c.
    destruct (nth_error source (pos st + 1)) as [d|] eqn:Ed;
      [|discriminate].
    apply N.eqb_eq in Eb. subst d. rewrite Nat.add_1_r in Ed.
    rewrite scan_comment_spec. eexists.
    cbn [tokens pos cur_line cur_column]. split; [reflexivity|].
    cbn [type value line column]. rewrite slice_take_while.
    pose proof (take_while_head not_newline source (pos st) SLASH Hn
                  eq_refl).
    repeat split; try reflexivity; try lia.
    unfold well_formed. cbn [type value].
    rewrite take_while_all, andb_true_r.
    rewrite (take_while_cons not_newline source (pos st) SLASH Hn eq_refl).
    rewrite (take_while_cons not_newline source (S (pos st)) SLASH Ed
               eq_refl).
    reflexivity. }
  destruct (is_string_start source st) eqn:E3.
  { destruct (scan_string_spec source st c Hc) as (Hl & Hcol & Ht & Hp).
    eexists. split; [exact Ht|]. cbn [type value line column].
    assert (Hlt : pos st < pos (scan_string source st)).
    { destruct (find_close c (skipn (S (pos st)) source));
        apply in_range_lt in Hr; lia. }
    repeat split; try reflexivity; try assumption.
    unfold well_formed. cbn [type value].
    rewrite (scan_string_text source st c Hc).
    unfold is_string_start in E3. rewrite Hc in E3. cbn [is_char] in E3.
    pose proof (string_text_closes c (skipn (S (pos st)) source)) as Hcl.
    destruct (find_close c (skipn (S (pos st)) source));
      rewrite E3, Hcl; reflexivity. }
  destruct (is_number_start source st) eqn:E4.
  { unfold is_number_start in E4. rewrite Hc in E4.
    cbn [re_digit re_test] in E4.
    assert (Hd : is_digit_or_dot c = true)
      by (unfold is_digit_or_dot; rewrite E4; reflexivity).
    rewrite scan_number_spec. eexists.
    cbn [tokens pos cur_line cur_column]. split; [reflexivity|].
    cbn [type value line column]. rewrite slice_take_while.
    pose proof (take_while_head is_digit_or_dot source (pos st) c Hn Hd).
    repeat split; try reflexivity; try lia.
    unfold well_formed. cbn [type value].
    rewrite take_while_all, andb_true_r.
    rewrite (take_while_cons is_digit_or_dot source (pos st) c Hn Hd).
    exact E4. }
  destruct (is_ident_start_at source st) eqn:E5.
  { unfold is_ident_start_at in E5. rewrite Hc in E5.
    cbn [re_ident_start re_test] in E5.
    assert (Hd : is_ident_char c = true)
      by (unfold is_ident_char; rewrite E5; reflexivity).
    rewrite scan_ident_spec. eexists.
    cbn [tokens pos cur_line cur_column]. split; [reflexivity|].
    cbn [type value line column]. rewrite slice_take_while.
    pose proof (take_while_head is_ident_char source (pos st) c Hn Hd).
    assert (Hw : forall b,
              re_test is_ident_start false
                (hd_error (take_while is_ident_char (skipn (pos st) source)))
              && forallb is_ident_char
                   (take_while is_ident_char (skipn (pos st) source))
              && b = b).
    { intros b. rewrite take_while_all, andb_true_r.
      rewrite (take_while_cons is_ident_char source (pos st) c Hn Hd).
      cbn [hd_error re_test]. rewrite E5. reflexivity. }
    split; [reflexivity|]. split; [lia|].
    destruct (has KEYWORDS _) eqn:Ek; unfold well_formed;
      cbn [type value]; rewrite Hw, ?Ek;
      repeat split; try reflexivity; f_equal; lia. }
  destruct (is_two_char_operator source st) eqn:E6.
  { unfold is_two_char_operator in E6. apply andb_true_iff in E6.
    unfold emit2, push, advance. eexists.
    cbn [tokens pos cur_line cur_column]. split; [reflexivity|].
    cbn [type value line column].
    repeat split; try reflexivity; try lia;
      try (unfold two_char; f_equal; lia).
    unfold well_formed. cbn [type value]. exact (proj2 E6). }
  destruct (is_operator source st) eqn:E7.
  { unfold is_operator in E7. rewrite Hc in E7. cbn [has_char] in E7.
    unfold emit1, push, advance. eexists.
    cbn [tokens pos cur_line cur_column]. split; [reflexivity|].
    cbn [type value line column].
    repeat split; try reflexivity; try lia.
    unfold well_formed. cbn [type value].
    rewrite (slice_one source (pos st) c Hn). exact E7. }
  destruct (is_punctuation source st) eqn:E8.
  { unfold is_punctuation in E8. rewrite Hc in E8. cbn [has_char] in E8.
    unfold emit1, push, advance. eexists.
    cbn [tokens pos cur_line cur_column]. split; [reflexivity|].
    cbn [type value line column].
    repeat split; try reflexivity; try lia.
    unfold well_formed. cbn [type value].
    rewrite (slice_one source (pos st) c Hn). rewrite E8. reflexivity. }
  discriminate.
Qed.

End Places.

Lemma well_formed_no_nl (t : Token) :
  well_formed t = true -> type t <> StringLit -> type t <> Whitespace ->
  count_nl (value t) = 0.
Proof.
  unfold well_formed. destruct (type t); intros H Hs Hw;
    try contradiction; repeat rewrite andb_true_iff in H.
  - apply (forallb_no_nl is_ident_char); [exact is_ident_char_neq | tauto].
  - apply (forallb_no_nl is_ident_char); [exact is_ident_char_neq | tauto].
  - apply (forallb_no_nl is_digit_or_dot);
      [exact is_digit_or_dot_neq | tauto].
  - apply operators_no_nl. exact H.
  - apply punctuation_no_nl. tauto.
  - apply (forallb_no_nl not_newline); [exact not_newline_neq | tauto].
Qed.

Lemma well_formed_nonempty (t : Token) :
  well_formed t = true -> value t <> [].
Proof.
  unfold well_formed. intros H E. rewrite E in H.
  destruct (type t); discriminate.
Qed.

Section RunShape.

Variable source : jsstring.

Lemma run_well_formed (fuel : nat) :
  forallb well_formed (tokens (run source fuel)) = true.
Proof.
  unfold run. apply while_loop_ind; [|reflexivity].
  intros st H Hr. destruct (unrecognized source st) eqn:Hu.
  - rewrite (step_unrecognized source st Hu). exact H.
  - destruct (step_places source st Hr Hu) as (t & Ht & _ & _ & Hw & _).
    rewrite Ht, forallb_app, H. simpl. rewrite Hw. reflexivity.
Qed.

Lemma run_one_based (fuel : nat) : one_based (run source fuel).
Proof.
  unfold run. apply while_loop_ind.
  - intros st (Hl & Hc & Ht) Hr. destruct (unrecognized source st) eqn:Hu.
    + rewrite (step_unrecognized source st Hu).
      repeat split; simpl; try lia; apply Ht; assumption.
    + destruct (step_places source st Hr Hu) as (t & Htok & _ & _ & _ & Hp).
      assert (Hnew : (1 <= cur_line (step source st))%Z
                     /\ (1 <= cur_column (step source st))%Z
                     /\ (1 <= line t)%Z
                     /\ (type t <> Whitespace -> (1 <= column t)%Z)).
      { destruct (type t);
          try (destruct Hp as (H1 & H2 & H3 & H4);
               repeat split; try lia; intros _; lia).
        destruct Hp as (H1 & H2 & H3 & H4).
        pose proof (column_after_bounds (cur_column st) (value t) Hc).
        repeat split; try lia. intros Hne. contradiction. }
      destruct Hnew as (N1 & N2 & N3 & N4).
      split; [exact N1|]. split; [exact N2|].
      intros u Hu'. rewrite Htok in Hu'. apply in_app_or in Hu'.
      destruct Hu' as [Hu'|[<-|[]]]; [apply Ht; exact Hu'|].
      split; assumption.
  - repeat split; simpl; try lia; contradiction.
Qed.

Lemma newlines_outside_strings_firstn (toks : list Token) (i j : nat) :
  i <= j ->
  newlines_outside_strings (firstn i toks)
  <= newlines_outside_strings (firstn j toks).
Proof.
  intros H. rewrite <- (firstn_skipn i (firstn j toks)).
  rewrite firstn_firstn, Nat.min_l by exact H.
  unfold newlines_outside_strings. rewrite map_app, list_sum_app. lia.
Qed.

(** A dropped character is in range and starts no token. *)
Lemma dropped_unrecognized (fuel : nat) (st : State) (p : nat) :
  In p (dropped source fuel st) ->
  pos st <= p
  /\ exists c, nth_error source p = Some c /\ recognized_char c = false.
Proof.
  revert st; induction fuel as [|fuel IH]; intros st; simpl; [tauto|].
  destruct (in_range source st) eqn:Hr; [|simpl; tauto].
  intros H. apply in_app_or in H. destruct H as [H|H].
  - destruct (unrecognized source st) eqn:Hu; [|contradiction].
    destruct H as [<-|[]]. split; [lia|].
    destruct (in_range_cur source st Hr) as [c Hc]. exists c.
    split; [exact Hc|].
    destruct (recognized_char c) eqn:E; [|reflexivity].
    rewrite (recognized_char_not_dropped source st c Hc E) in Hu.
    discriminate.
  - destruct (IH _ H) as [Hp Hc]. split; [|exact Hc].
    pose proof (step_advances source st Hr). lia.
Qed.

End RunShape.

(** ** Coverage: the tokens spell the source without the dropped
    characters *)

Lemma remove_at_cons_lt (p d : nat) (drop : list nat) (l : jsstring) :
  d < p -> remove_at p (d :: drop) l = remove_at p drop l.
Proof.
  revert p; induction l as [|c l IH]; intros p H; simpl; [reflexivity|].
  assert (E : (p =? d) = false) by (apply Nat.eqb_neq; lia).
  rewrite E. simpl. rewrite !IH by lia. reflexivity.
Qed.

Lemma remove_at_ge (p : nat) (drop : list nat) (l1 l2 : jsstring) :
  (forall d, In d drop -> p + length l1 <= d) ->
  remove_at p drop (l1 ++ l2) = l1 ++ remove_at (p + length l1) drop l2.
Proof.
  revert p; induction l1 as [|c l1 IH]; intros p H; simpl.
  - rewrite Nat.add_0_r. reflexivity.
  - assert (E : existsb (Nat.eqb p) drop = false).
    { destruct (existsb (Nat.eqb p) drop) eqn:E'; [|reflexivity].
      apply existsb_exists in E'. destruct E' as (d & Hd & Heq).
      apply Nat.eqb_eq in Heq. subst d. apply H in Hd. simpl in Hd. lia. }
    rewrite E. f_equal. rewrite IH.
    + f_equal. f_equal. lia.
    + intros d Hd. apply H in Hd. simpl in Hd. lia.
Qed.

Lemma remove_at_length (p : nat) (drop : list nat) (l : jsstring) :
  length (remove_at p drop l) <= length l.
Proof.
  revert p; induction l as [|c l IH]; intros p; simpl; [lia|].
  specialize (IH (S p)). destruct (existsb (Nat.eqb p) drop); simpl; lia.
Qed.

Lemma text_of_app (a b : list Token) :
  text_of (a ++ b) = text_of a ++ text_of b.
Proof. unfold text_of. rewrite map_app, concat_app. reflexivity. Qed.

Section Coverage.

Variable source : jsstring.

Lemma loop_pos_le (fuel : nat) (st : State) :
  pos st <= pos (while_loop fuel (in_range source) (step source) st).
Proof.
  apply (while_loop_ind _ _ (fun s => pos st <= pos s)); [|lia].
  intros s H Hr. pose proof (step_advances source s Hr). lia.
Qed.

Lemma slice_head (p q : nat) (c : char) :
  nth_error source p = Some c -> p < q ->
  slice source p q = c :: slice source (S p) q.
Proof.
  intros Hc Hlt. unfold slice. rewrite (skipn_cons_nth source p c Hc).
  replace (q - p) with (S (q - S p)) by lia. reflexivity.
Qed.

Lemma loop_coverage (fuel : nat) (st : State) :
  let st' := while_loop fuel (in_range source) (step source) st in
  text_of (tokens st')
  = text_of (tokens st)
    ++ remove_at (pos st) (dropped source fuel st)
         (slice source (pos st) (pos st')).
Proof.
  revert st; induction fuel as [|fuel IH]; intros st; cbv zeta;
    cbn [while_loop dropped].
  - unfold slice. rewrite Nat.sub_diag. simpl. rewrite app_nil_r.
    reflexivity.
  - destruct (in_range source st) eqn:Hr.
    2:{ unfold slice. rewrite Nat.sub_diag. simpl. rewrite app_nil_r.
        reflexivity. }
    specialize (IH (step source st)). cbv zeta in IH.
    pose proof (loop_pos_le fuel (step source st)) as Hle.
    pose proof (step_advances source st Hr) as Hadv.
    set (st' := while_loop fuel (in_range source) (step source)
                  (step source st)) in *.
    destruct (unrecognized source st) eqn:Hu.
    + destruct (in_range_cur source st Hr) as [c Hc].
      rewrite (step_unrecognized source st Hu) in IH, Hle.
      cbn [pos tokens advance] in IH, Hle.
      rewrite IH. f_equal. cbn [app].
      rewrite (slice_head (pos st) (pos st') c Hc) by lia.
      cbn [remove_at existsb]. rewrite Nat.eqb_refl. cbn [orb].
      rewrite remove_at_cons_lt by lia.
      rewrite (step_unrecognized source st Hu). reflexivity.
    + destruct (step_places source st Hr Hu) as (t & Ht & Hv & _).
      rewrite IH, Ht, text_of_snoc, <- app_assoc. f_equal. cbn [app].
      rewrite <- (slice_app source (pos st) (pos (step source st)) (pos st'))
        by lia.
      rewrite <- Hv. rewrite remove_at_ge.
      * f_equal.
        destruct (Nat.le_gt_cases (pos (step source st)) (length source))
          as [Hin|Hout].
        -- rewrite Hv, slice_length by exact Hin.
           f_equal. lia.
        -- unfold slice. rewrite (skipn_past source (pos (step source st)))
             by lia.
           rewrite firstn_nil. reflexivity.
      * intros d Hd.
        apply (dropped_unrecognized source) in Hd. destruct Hd as [Hd _].
        assert (length (value t) <= pos (step source st) - pos st).
        { rewrite Hv. unfold slice. rewrite length_firstn. lia. }
        lia.
Qed.

Lemma run_coverage :
  text_of (tokens (run source (length source)))
  = remove_at 0 (unrecognized_positions source) source.
Proof.
  unfold run. rewrite loop_coverage.
  cbn [init tokens pos text_of map concat app].
  unfold unrecognized_positions. f_equal.
  unfold slice. rewrite Nat.sub_0_r. cbn [skipn]. apply firstn_all2.
  apply in_range_ge. apply (run_exit source (length source)). lia.
Qed.

End Coverage.

(** ** Positions *)

Section Layout.

Variable source : jsstring.

Lemma line_at_slice (p q : nat) :
  p <= q ->
  line_at source q
  = (line_at source p + Z.of_nat (count_nl (slice source p q)))%Z.
Proof.
  intros H. unfold line_at.
  rewrite <- (firstn_slice source p q H), count_nl_app. lia.
Qed.

Lemma column_at_slice (p q : nat) :
  p <= q ->
  column_at source q = column_after (column_at source p) (slice source p q).
Proof.
  intros H. unfold column_at.
  rewrite <- (firstn_slice source p q H). apply column_after_app.
Qed.

Lemma step_laid_out (st : State) :
  in_range source st = true -> unrecognized source st = false ->
  laid_out source st ->
  strings_single_line (tokens (step source st)) = true ->
  laid_out source (step source st).
Proof.
  intros Hr Hu (Htext & Hcnt & Htoks) Hssl.
  destruct (step_places source st Hr Hu) as (t & Htok & Hv & Hlt & Hwf & Hp).
  apply in_range_lt in Hr.
  destruct (Hcnt (Nat.lt_le_incl _ _ Hr)) as [Hline Hcol].
  rewrite Htok in Hssl. unfold strings_single_line in Hssl.
  rewrite forallb_app in Hssl. apply andb_true_iff in Hssl.
  destruct Hssl as [_ Hstr]. cbn [forallb] in Hstr.
  rewrite andb_true_r in Hstr.
  (* what the iteration does to the counters, whatever the token *)
  assert (Hfacts :
    (type t <> Whitespace -> count_nl (value t) = 0)
    /\ (cur_line (step source st)
        = cur_line st + Z.of_nat (count_nl (value t)))%Z
    /\ (pos (step source st) <= length source ->
        cur_column (step source st)
        = column_after (cur_column st) (value t))
    /\ ((type t = Whitespace -> count_nl (value t) = 0) ->
        line t = cur_line st /\ column t = cur_column st)).
  { assert (Hlen : pos (step source st) <= length source ->
                   length (value t) = pos (step source st) - pos st)
      by (intros H; rewrite Hv; apply slice_length; exact H).
    destruct (type t) eqn:Ety;
      try (assert (Hnl : count_nl (value t) = 0)
             by (first [ apply Nat.eqb_eq; exact Hstr
                       | apply well_formed_no_nl;
                         [exact Hwf | rewrite Ety; discriminate
                         | rewrite Ety; discriminate] ]);
           destruct Hp as (H1 & H2 & H3 & H4);
           repeat split; try assumption; try (intros; assumption);
           [ lia
           | intros Hin; rewrite (column_after_no_nl _ _ Hnl), H4,
               (Hlen Hin); reflexivity ]).
    destruct Hp as (H1 & H2 & H3 & H4).
    repeat split; try assumption.
    - intros Hne. contradiction.
    - intros _. exact H3.
    - rewrite H1, H2, (H eq_refl). lia.
    - rewrite H4, H3, (column_after_no_nl _ _ (H eq_refl)). lia. }
  destruct Hfacts as (Hnows & Hl' & Hc' & Hstart).
  split; [|split].
  - rewrite Htok, text_of_snoc, Htext, Hv. apply firstn_slice. lia.
  - intros Hin. split.
    + rewrite (line_at_slice (pos st) (pos (step source st))) by lia.
      rewrite <- Hv, <- Hline. exact Hl'.
    + rewrite (column_at_slice (pos st) (pos (step source st))) by lia.
      rewrite <- Hv, <- Hcol. exact (Hc' Hin).
  - intros i u Hu' Hws. rewrite Htok in Hu' |- *.
    destruct (Nat.lt_ge_cases i (length (tokens st))) as [Hi|Hi].
    + rewrite nth_error_app1 in Hu' by exact Hi.
      rewrite firstn_app.
      replace (i - length (tokens st)) with 0 by lia.
      cbn [firstn]. rewrite app_nil_r. exact (Htoks i u Hu' Hws).
    + rewrite nth_error_app2 in Hu' by exact Hi.
      destruct (i - length (tokens st)) as [|k] eqn:Ek; cbn in Hu'.
      * injection Hu' as <-.
        assert (i = length (tokens st)) by lia. subst i.
        rewrite firstn_app, Nat.sub_diag, firstn_all. cbn [firstn].
        rewrite app_nil_r, Htext, length_firstn, Nat.min_l by lia.
        destruct (Hstart Hws) as [-> ->]. split; assumption.
      * destruct k; discriminate.
Qed.

Lemma loop_laid_out (fuel : nat) (st : State) :
  dropped source fuel st = [] ->
  (strings_single_line (tokens st) = true -> laid_out source st) ->
  let st' := while_loop fuel (in_range source) (step source) st in
  strings_single_line (tokens st') = true -> laid_out source st'.
Proof.
  revert st; induction fuel as [|fuel IH]; intros st Hd Hst; cbv zeta;
    cbn [while_loop]; [exact Hst|].
  cbn [dropped] in Hd. destruct (in_range source st) eqn:Hr; [|exact Hst].
  destruct (unrecognized source st) eqn:Hu; [discriminate|].
  cbn [app] in Hd. apply IH; [exact Hd|].
  intros Hssl. apply step_laid_out; try assumption.
  apply Hst.
  destruct (step_places source st Hr Hu) as (t & Htok & _).
  rewrite Htok in Hssl. unfold strings_single_line in Hssl |- *.
  rewrite forallb_app in Hssl. apply andb_true_iff in Hssl. tauto.
Qed.

Lemma run_laid_out :
  unrecognized_positions source = [] ->
  strings_single_line (tokens (run source (length source))) = true ->
  laid_out source (run source (length source)).
Proof.
  intros Hd. unfold run. apply (loop_laid_out _ _ Hd).
  intros _. split; [reflexivity|].
  split; [intros _; split; reflexivity|].
  intros [|i] t; discriminate.
Qed.

End Layout.

(** ** More on which branch an iteration takes *)

Section MoreDispatch.

Variable source : jsstring.

Lemma two_char_false (st : State) (c : char) :
  cur source st = Some c ->
  (forall d, nth_error source (pos st + 1) = Some d ->
     has OPERATORS [c; d] = false) ->
  is_two_char_operator source st = false.
Proof.
  intros Hc H. unfold is_two_char_operator, two_char.
  apply andb_false_iff.
  destruct (nth_error source (pos st + 1)) as [d|] eqn:Ed.
  - right. rewrite (slice_two source (pos st) c d Hc Ed). apply H.
    reflexivity.
  - left. apply Nat.ltb_ge, nth_error_None. exact Ed.
Qed.

Lemma step_number (st : State) (c : char) :
  cur source st = Some c -> is_digit c = true ->
  step source st = scan_number source st.
Proof.
  intros Hc Hd.
  assert (H1 : is_space c = false) by char_arith.
  assert (H2 : (c =? SLASH)%N = false) by char_arith.
  assert (H3 : (c =? DQUOTE)%N = false) by char_arith.
  assert (H4 : (c =? SQUOTE)%N = false) by char_arith.
  unfold step, is_whitespace_start, is_comment_start, is_string_start,
    is_number_start. rewrite Hc.
  cbn [re_space re_digit re_test is_char].
  rewrite H1, H2, H3, H4, Hd. reflexivity.
Qed.

Lemma step_symbol (st : State) (c : char) :
  cur source st = Some c -> symbol_char c = true ->
  step source st
  = if is_two_char_operator source st then emit2 source st
    else if has OPERATORS [c] then emit1 source Operator st
    else if has PUNCTUATION [c] then emit1 source Punctuation st
    else advance st.
Proof.
  intros Hc Hs. unfold symbol_char in Hs.
  repeat rewrite andb_true_iff in Hs. repeat rewrite negb_true_iff in Hs.
  destruct Hs as (((((H1 & H2) & H3) & H4) & H5) & H6).
  unfold step, is_whitespace_start, is_comment_start, is_string_start,
    is_number_start, is_ident_start_at, is_operator, is_punctuation.
  rewrite Hc. cbn [re_space re_digit re_ident_start re_test is_char has_char].
  rewrite H1, H2, H3, H4, H5, H6. reflexivity.
Qed.

End MoreDispatch.

Lemma slice_In (l : jsstring) (a b : nat) (c : char) :
  In c (slice l a b) -> In c l.
Proof.
  unfold slice. intros H.
  rewrite <- (firstn_skipn a l). apply in_or_app. right.
  rewrite <- (firstn_skipn (b - a) (skipn a l)). apply in_or_app. left.
  exact H.
Qed.

Lemma run_values_in_source (source : jsstring) (fuel : nat) :
  forall t c, In t (tokens (run source fuel)) -> In c (value t) ->
    In c source.
Proof.
  unfold run. apply while_loop_ind.
  - intros st IH Hr t c Ht Hc. destruct (unrecognized source st) eqn:Hu.
    + rewrite (step_unrecognized source st Hu) in Ht. eapply IH; eassumption.
    + destruct (step_places source st Hr Hu) as (u & Hu' & Hv & _).
      rewrite Hu' in Ht. apply in_app_or in Ht.
      destruct Ht as [Ht|[<-|[]]]; [eapply IH; eassumption|].
      rewrite Hv in Hc. eapply slice_In. exact Hc.
  - intros t c [].
Qed.

Lemma nonempty_text_length (toks : list Token) :
  Forall (fun t => value t <> []) toks ->
  length toks <= length (text_of toks).
Proof.
  unfold text_of. induction 1 as [|t toks Ht _ IH]; simpl; [lia|].
  rewrite length_app. destruct (value t); [contradiction|]. simpl. lia.
Qed.

Lemma tokens_nonempty (source : jsstring) :
  Forall (fun t => value t <> []) (tokenize source).
Proof.
  apply Forall_forall. intros t Ht. apply well_formed_nonempty.
  pose proof (run_well_formed source (length source)) as H.
  rewrite forallb_forall in H. apply H. exact Ht.
Qed.

(** ** Further properties, stated *)

(** X1 (token shapes).  Every token of [tokenize source] has the text its
    type announces: a whitespace token is a non-empty run of blanks; a
    comment starts with two slashes and has no line feed; a string starts
    with a quote and, if the text after it has a closing delimiter, ends
    right after that delimiter; a number starts with a digit and consists
    of digits and dots; a keyword or identifier starts with a letter or
    underscore, consists of letters, digits and underscores, and is a
    keyword exactly when it is in [KEYWORDS]; an operator is a member of
    [OPERATORS]; a punctuation token is one character of [PUNCTUATION]. *)
Theorem tokens_well_formed (source : jsstring) :
  forallb well_formed (tokenize source) = true.
Proof. apply run_well_formed. Qed.

(** X2 (coverage).  The values of the tokens, joined in order, are the
    source without the characters at the dropped positions: every
    character is in exactly one token or is dropped. *)
Theorem tokens_cover_source (source : jsstring) :
  text_of (tokenize source)
  = remove_at 0 (unrecognized_positions source) source.
Proof. apply run_coverage. Qed.

(** X3 (what is dropped).  A dropped position lies in the source and
    holds a character that cannot start a token: no blank, digit, letter,
    underscore, quote, one-character operator or punctuation mark is ever
    dropped. *)
Theorem dropped_are_unrecognized (source : jsstring) (p : nat) :
  In p (unrecognized_positions source) ->
  exists c, nth_error source p = Some c /\ recognized_char c = false.
Proof.
  intros H. apply (dropped_unrecognized source) in H. tauto.
Qed.

Lemma dropped_are_unrecognized_witness :
  In 2 (unrecognized_positions (js "a @ b"))
  /\ exists c, nth_error (js "a @ b") 2 = Some c
               /\ recognized_char c = false.
Proof.
  split; [left; reflexivity|].
  apply (dropped_are_unrecognized (js "a @ b") 2). left. reflexivity.
Defined.

(** X5 (positions).  When no character is dropped and no string token
    contains a line feed, every token that is not a whitespace run over a
    line feed carries the position of its first character: with [off] the
    length of the text of the tokens before it, the token's text is the
    source from [off] on, its line is one plus the number of line feeds
    before [off], and its column is one plus the number of characters
    between the last of these line feeds and [off]. *)
Theorem token_positions_correct (source : jsstring) (i : nat) (t : Token) :
  unrecognized_positions source = [] ->
  strings_single_line (tokenize source) = true ->
  nth_error (tokenize source) i = Some t ->
  (type t = Whitespace -> count_nl (value t) = 0) ->
  let off := length (text_of (firstn i (tokenize source))) in
  slice source off (off + length (value t)) = value t
  /\ line t = line_at source off
  /\ column t = column_at source off.
Proof.
  intros Hd Hs Ht Hws off.
  destruct (run_laid_out source Hd Hs) as (Htext & _ & Htoks).
  split; [|exact (Htoks i t Ht Hws)].
  fold (tokenize source) in Htext.
  assert (Hsrc : text_of (tokenize source) = source).
  { rewrite Htext. apply firstn_all2. apply in_range_ge.
    apply (run_exit source (length source)). lia. }
  destruct (nth_error_split _ _ Ht) as (l1 & l2 & Hsplit & Hlen).
  assert (Hfirst : firstn i (tokenize source) = l1).
  { rewrite Hsplit, <- Hlen, firstn_app, Nat.sub_diag, firstn_all.
    cbn [firstn]. apply app_nil_r. }
  unfold off. rewrite Hfirst.
  eapply slice_prefix with (rest := text_of l2).
  rewrite <- Hsrc at 1. rewrite Hsplit, text_of_app.
  rewrite skipn_app, Nat.sub_diag, skipn_all. reflexivity.
Qed.

Lemma token_positions_correct_witness :
  let source := js ("if (x) {" ++ nl ++ "  y = 'a b'; // c" ++ nl ++ "}") in
  nth_error (tokenize source) 12
  = Some (mkToken StringLit (js "'a b'") 2 7)
  /\ slice source 15 (15 + 5) = js "'a b'"
  /\ line (mkToken StringLit (js "'a b'") 2 7) = line_at source 15
  /\ column (mkToken StringLit (js "'a b'") 2 7) = column_at source 15.
Proof.
  intros source. split; [reflexivity|].
  apply (token_positions_correct source 12
           (mkToken StringLit (js "'a b'") 2 7));
    reflexivity.
Defined.

(** X6 (one-based fields).  Every token has a line of at least one, and
    every token that is not whitespace has a column of at least one; so
    all the tokens of [tokenizeCompact] have one-based lines and columns. *)
Theorem token_fields_one_based (source : jsstring) (t : Token) :
  (In t (tokenize source) ->
   (1 <= line t)%Z /\ (type t <> Whitespace -> (1 <= column t)%Z))
  /\ (In t (tokenizeCompact source) ->
      (1 <= line t)%Z /\ (1 <= column t)%Z).
Proof.
  destruct (run_one_based source (length source)) as (_ & _ & H).
  split; [exact (H t)|].
  unfold tokenizeCompact, stripWhitespace. intros Hin.
  apply filter_In in Hin. destruct Hin as [Hin Hty].
  destruct (H t Hin) as [Hl Hc]. split; [exact Hl|]. apply Hc.
  intros E. rewrite E in Hty. discriminate.
Qed.

Lemma token_fields_one_based_witness :
  let source := js ("a" ++ nl ++ "  b") in
  let t := mkToken Identifier (js "b") 2 3 in
  In t (tokenizeCompact source) /\ (1 <= line t)%Z /\ (1 <= column t)%Z.
Proof.
  intros source t. split; [right; left; reflexivity|].
  apply (proj2 (token_fields_one_based source t)).
  right; left; reflexivity.
Defined.

(** X7 (lines never decrease).  Along the token sequence the line field
    never decreases. *)
Theorem token_lines_nondecreasing (source : jsstring) (i j : nat)
    (t u : Token) :
  i <= j ->
  nth_error (tokenize source) i = Some t ->
  nth_error (tokenize source) j = Some u ->
  (line t <= line u)%Z.
Proof.
  intros Hij Ht Hu.
  destruct (run_lines_ok source (length source)) as [_ H].
  fold (tokenize source) in H.
  rewrite (H i t Ht), (H j u Hu).
  pose proof (newlines_outside_strings_firstn (tokenize source) (S i) (S j)).
  lia.
Qed.

Lemma token_lines_nondecreasing_witness :
  let source := js ("a" ++ nl ++ nl ++ "b") in
  (line (mkToken Identifier (js "a") 1 1)
   <= line (mkToken Identifier (js "b") 3 1))%Z.
Proof.
  intros source.
  apply (token_lines_nondecreasing source 0 2); [lia | reflexivity..].
Defined.

(** X8 (no empty token).  No token has an empty value, so there are at
    most as many tokens as the source has characters. *)
Theorem token_count_bounded (source : jsstring) :
  Forall (fun t => value t <> []) (tokenize source)
  /\ length (tokenize source) <= length source.
Proof.
  split; [apply tokens_nonempty|].
  pose proof (nonempty_text_length _ (tokens_nonempty source)) as H.
  unfold tokenize in H at 2. rewrite run_coverage in H.
  pose proof (remove_at_length 0 (unrecognized_positions source) source).
  lia.
Qed.

(** X9 (numbers).  At a digit the iteration consumes the longest run [w]
    of digits and dots, whatever the number of dots and wherever they
    stand, and emits it as one Number token at the current line and
    column. *)
Theorem number_token (source : jsstring) (st : State) (c : char) :
  cur source st = Some c -> is_digit c = true ->
  let w := take_while is_digit_or_dot (skipn (pos st) source) in
  step source st
  = mkState (pos st + length w) (cur_line st)
      (cur_column st + Z.of_nat (length w))
      (tokens st ++ [mkToken Number w (cur_line st) (cur_column st)])
  /\ hd_error w = Some c
  /\ forallb is_digit_or_dot w = true
  /\ (forall d, nth_error source (pos st + length w) = Some d ->
        is_digit_or_dot d = false).
Proof.
  intros Hc Hd w.
  assert (Hdd : is_digit_or_dot c = true)
    by (unfold is_digit_or_dot; rewrite Hd; reflexivity).
  split; [|split; [|split]].
  - rewrite (step_number source st c Hc Hd). apply scan_number_spec.
  - unfold w. rewrite (take_while_cons _ _ _ _ Hc Hdd). reflexivity.
  - apply take_while_all.
  - intros d Hn. rewrite <- nth_error_skipn in Hn.
    exact (take_while_stop _ _ _ Hn).
Qed.

Lemma number_token_witness :
  let source := js "v = 1.2.3.;" in
  let st := mkState 4 1 5 [] in
  cur source st = Some 49%N /\ is_digit 49%N = true
  /\ step source st
     = mkState (4 + 6) 1 (5 + Z.of_nat 6)
         ([] ++ [mkToken Number (js "1.2.3.") 1 5]).
Proof.
  intros source st. split; [reflexivity|]. split; [reflexivity|].
  exact (proj1 (number_token source st 49%N eq_refl eq_refl)).
Defined.

(** X10 (whitespace).  At a blank the iteration consumes the longest run
    [w] of blanks and emits it as one Whitespace token.  The line counter
    grows by the line feeds of [w]; the column counter restarts at one
    after each of them.  The token takes the line after the run and the
    column after the run minus the length of the run: for a run without a
    line feed these are the line and the column of its first character;
    for a run with a line feed the line is beyond that of its first
    character and the column is below one. *)
Theorem whitespace_token (source : jsstring) (st : State) (c : char) :
  cur source st = Some c -> is_space c = true ->
  let w := take_while is_space (skipn (pos st) source) in
  let l := (cur_line st + Z.of_nat (count_nl w))%Z in
  let col := column_after (cur_column st) w in
  step source st
  = mkState (pos st + length w) l col
      (tokens st ++ [mkToken Whitespace w l (col - Z.of_nat (length w))])
  /\ hd_error w = Some c
  /\ (forall d, nth_error source (pos st + length w) = Some d ->
        is_space d = false)
  /\ (count_nl w = 0 ->
      l = cur_line st /\ (col - Z.of_nat (length w))%Z = cur_column st)
  /\ (0 < count_nl w ->
      (cur_line st < l)%Z /\ (col - Z.of_nat (length w) <= 0)%Z).
Proof.
  intros Hc Hs w l col. split; [|split; [|split; [|split]]].
  - rewrite (step_whitespace source st c Hc Hs).
    apply scan_whitespace_state.
  - unfold w. rewrite (take_while_cons _ _ _ _ Hc Hs). reflexivity.
  - intros d Hn. rewrite <- nth_error_skipn in Hn.
    exact (take_while_stop _ _ _ Hn).
  - intros H0. unfold l, col. rewrite H0, (column_after_no_nl _ _ H0).
    lia.
  - intros Hpos. unfold l, col.
    pose proof (column_after_nl (cur_column st) w Hpos). lia.
Qed.

Lemma whitespace_token_witness :
  let source := js ("a  " ++ nl ++ " b") in
  let st := mkState 1 1 2 [] in
  cur source st = Some 32%N /\ is_space 32%N = true
  /\ step source st
     = mkState (1 + 4) (1 + Z.of_nat 1) 2
         ([] ++ [mkToken Whitespace (js ("  " ++ nl ++ " ")) (1 + Z.of_nat 1)
                   (2 - Z.of_nat 4)]).
Proof.
  intros source st. split; [reflexivity|]. split; [reflexivity|].
  exact (proj1 (whitespace_token source st 32%N eq_refl eq_refl)).
Defined.

(** X11 (one-character operators).  At [+], [-] or [*], and at [=], [<]
    or [>] unless an equals sign follows, the iteration emits the
    character as one Operator token and moves the cursor and the column by
    one. *)
Theorem one_char_operator_token (source : jsstring) (st : State)
    (c : char) :
  cur source st = Some c ->
  In c (js "+-*") \/
  (In c (js "=<>") /\ nth_error source (pos st + 1) <> Some 61%N) ->
  step source st
  = mkState (S (pos st)) (cur_line st) (cur_column st + 1)
      (tokens st ++ [mkToken Operator [c] (cur_line st) (cur_column st)]).
Proof.
  intros Hc Hin.
  assert (H : symbol_char c = true /\ has OPERATORS [c] = true
              /\ forall d, nth_error source (pos st + 1) = Some d ->
                   has OPERATORS [c; d] = false).
  { destruct Hin as [Hin|[Hin Hnext]]; simpl in Hin.
    - repeat (destruct Hin as [<-|Hin];
              [repeat split; intros d _; reflexivity|]).
      contradiction.
    - assert (Hd : forall d, nth_error source (pos st + 1) = Some d ->
                     (d =? 61)%N = false).
      { intros d Hd. apply N.eqb_neq. intros ->. apply Hnext. exact Hd. }
      repeat (destruct Hin as [<-|Hin];
              [repeat split; intros d Hd';
               unfold has, OPERATORS; cbn; rewrite (Hd d Hd');
               reflexivity|]).
      contradiction. }
  destruct H as (Hsym & Hop & Htwo).
  rewrite (step_symbol source st c Hc Hsym).
  rewrite (two_char_false source st c Hc Htwo), Hop.
  unfold emit1, push, advance. cbn [pos cur_line cur_column tokens].
  rewrite (slice_one source (pos st) c Hc). reflexivity.
Qed.

Lemma one_char_operator_token_witness :
  let source := js "a=-b" in
  (cur source (mkState 1 1 2 []) = Some 61%N
   /\ step source (mkState 1 1 2 [])
      = mkState 2 1 (2 + 1) ([] ++ [mkToken Operator (js "=") 1 2]))
  /\ (cur source (mkState 2 1 3 []) = Some 45%N
      /\ step source (mkState 2 1 3 [])
         = mkState 3 1 (3 + 1) ([] ++ [mkToken Operator (js "-") 1 3])).
Proof.
  intros source. split; (split; [reflexivity|]).
  - apply (one_char_operator_token source (mkState 1 1 2 []) 61%N eq_refl).
    right. split; [left; reflexivity | discriminate].
  - apply (one_char_operator_token source (mkState 2 1 3 []) 45%N eq_refl).
    left. right; left; reflexivity.
Defined.

(** X12 (punctuation).  At one of the nine punctuation marks the
    iteration emits the character as one Punctuation token, whatever
    follows it, and moves the cursor and the column by one.  In
    particular a dot that does not follow a digit is punctuation. *)
Theorem punctuation_token (source : jsstring) (st : State) (c : char) :
  cur source st = Some c -> In c (js "(){}[];,.") ->
  step source st
  = mkState (S (pos st)) (cur_line st) (cur_column st + 1)
      (tokens st ++ [mkToken Punctuation [c] (cur_line st) (cur_column st)]).
Proof.
  intros Hc Hin.
  assert (H : symbol_char c = true /\ has OPERATORS [c] = false
              /\ has PUNCTUATION [c] = true
              /\ forall d, nth_error source (pos st + 1) = Some d ->
                   has OPERATORS [c; d] = false).
  { simpl in Hin.
    repeat (destruct Hin as [<-|Hin];
            [repeat split; intros d _; reflexivity|]).
    contradiction. }
  destruct H as (Hsym & Hop & Hpu & Htwo).
  rewrite (step_symbol source st c Hc Hsym).
  rewrite (two_char_false source st c Hc Htwo), Hop, Hpu.
  unfold emit1, push, advance. cbn [pos cur_line cur_column tokens].
  rewrite (slice_one source (pos st) c Hc). reflexivity.
Qed.

Lemma punctuation_token_witness :
  let source := js "a.b" in
  let st := mkState 1 1 2 [] in
  cur source st = Some 46%N
  /\ step source st
     = mkState 2 1 (2 + 1) ([] ++ [mkToken Punctuation (js ".") 1 2]).
Proof.
  intros source st. split; [reflexivity|].
  apply (punctuation_token source st 46%N eq_refl).
  simpl. tauto.
Defined.

(** X13 (a lone ampersand or bar).  An ampersand that is not followed by
    an ampersand, and a vertical bar that is not followed by a vertical
    bar, are unknown characters: the iteration emits no token and moves
    the cursor and the column by one. *)
Theorem lone_amp_or_bar_dropped (source : jsstring) (st : State)
    (c : char) :
  cur source st = Some c -> In c (js "&|") ->
  nth_error source (pos st + 1) <> Some c ->
  unrecognized source st = true
  /\ step source st
     = mkState (S (pos st)) (cur_line st) (cur_column st + 1) (tokens st).
Proof.
  intros Hc Hin Hnext.
  assert (Hd : forall d, nth_error source (pos st + 1) = Some d ->
                 (d =? c)%N = false).
  { intros d Hd. apply N.eqb_neq. intros ->. apply Hnext. exact Hd. }
  assert (Htwo : is_two_char_operator source st = false).
  { apply (two_char_false source st c Hc). intros d Hd'.
    specialize (Hd d Hd'). simpl in Hin.
    destruct Hin as [<-|[<-|[]]]; unfold has, OPERATORS; cbn; rewrite Hd;
      reflexivity. }
  assert (Hu : unrecognized source st = true).
  { unfold unrecognized, is_whitespace_start, is_comment_start,
      is_string_start, is_number_start, is_ident_start_at, is_operator,
      is_punctuation. rewrite Htwo, Hc. simpl in Hin.
    destruct Hin as [<-|[<-|[]]]; reflexivity. }
  split; [exact Hu|]. exact (step_unrecognized source st Hu).
Qed.

Lemma lone_amp_or_bar_dropped_witness :
  let source := js "a & b" in
  let st := mkState 2 1 3 [] in
  cur source st = Some 38%N
  /\ unrecognized source st = true
  /\ step source st = mkState 3 1 (3 + 1) [].
Proof.
  intros source st. split; [reflexivity|].
  apply (lone_amp_or_bar_dropped source st 38%N eq_refl).
  - left. reflexivity.
  - discriminate.
Defined.

(** X14 (filters with nothing to remove).  A source without blanks has
    no whitespace token, and a source without a slash has no comment
    token: the corresponding filter returns the tokens unchanged. *)
Theorem strip_nothing_to_remove (source : jsstring) :
  (forallb (fun c => negb (is_space c)) source = true ->
   stripWhitespace (tokenize source) = tokenize source)
  /\ (~ In SLASH source ->
      stripComments (tokenize source) = tokenize source).
Proof.
  pose proof (run_well_formed source (length source)) as Hwf.
  pose proof (run_values_in_source source (length source)) as Hin.
  fold (tokenize source) in Hwf, Hin. rewrite forallb_forall in Hwf.
  split; intros H; apply forallb_filter_id; apply forallb_forall;
    intros t Ht; specialize (Hwf t Ht); unfold well_formed in Hwf;
    destruct (type t) eqn:Ety; try reflexivity; exfalso.
  - apply andb_true_iff in Hwf. destruct Hwf as [Hhd _].
    destruct (value t) as [|c v] eqn:Ev; [discriminate|].
    cbn [hd_error re_test] in Hhd.
    rewrite forallb_forall in H.
    assert (Hc : In c source) by (apply (Hin t c Ht); rewrite Ev; left;
                                  reflexivity).
    apply H in Hc. rewrite Hhd in Hc. discriminate.
  - apply andb_true_iff in Hwf. destruct Hwf as [Hhd _].
    destruct (value t) as [|c v] eqn:Ev; [discriminate|].
    unfold starts_comment in Hhd. destruct v as [|d v]; [discriminate|].
    apply andb_true_iff in Hhd. destruct Hhd as [Hc _].
    apply N.eqb_eq in Hc. subst c.
    apply H. apply (Hin t SLASH Ht). rewrite Ev. left. reflexivity.
Qed.

Lemma strip_nothing_to_remove_witness :
  stripWhitespace (tokenize (js "a+(b*2)")) = tokenize (js "a+(b*2)")
  /\ stripComments (tokenize (js "let x = 1;")) = tokenize (js "let x = 1;").
Proof.
  split.
  - apply (proj1 (strip_nothing_to_remove (js "a+(b*2)"))). reflexivity.
  - apply (proj2 (strip_nothing_to_remove (js "let x = 1;"))).
    simpl. intros H.
    repeat (destruct H as [H|H]; [discriminate H|]). exact H.
Defined.

(** ** Unterminated strings *)

Section Unterminated.

Variable source : jsstring.

(** An iteration that emits an unterminated string leaves the cursor
    beyond the end of the source. *)
Lemma step_closed_or_done (st : State) (t : Token) :
  in_range source st = true ->
  places source st (step source st) t ->
  closed_string t = true \/ length source < pos (step source st).
Proof.
  intros Hr (Htok & Hv & Hlt & Hwf & _).
  destruct (type t) eqn:Ety;
    try (left; unfold closed_string; rewrite Ety; reflexivity).
  unfold well_formed in Hwf. rewrite Ety in Hwf.
  destruct (value t) as [|q body] eqn:Ev; [discriminate|].
  apply andb_true_iff in Hwf. destruct Hwf as [Hq _].
  destruct (in_range_cur source st Hr) as [c Hc].
  assert (Hcq : c = q).
  { unfold slice in Hv. rewrite (skipn_cons_nth source (pos st) c Hc) in Hv.
    destruct (pos (step source st) - pos st); [discriminate|].
    cbn [firstn] in Hv. congruence. }
  subst c.
  assert (Hquote : q = DQUOTE \/ q = SQUOTE).
  { apply orb_true_iff in Hq. destruct Hq as [Hq|Hq];
      apply N.eqb_eq in Hq; tauto. }
  rewrite (step_string source st q Hc Hquote) in Hv |- *.
  rewrite (scan_string_text source st q Hc) in Hv.
  destruct (scan_string_spec source st q Hc) as (_ & _ & _ & Hp).
  unfold closed_string. rewrite Ety, Ev.
  destruct (find_close q (skipn (S (pos st)) source)) as [k|] eqn:Ek.
  - left. cbv beta iota in Hv.
    assert (Hb : body = firstn (S k) (skipn (S (pos st)) source))
      by congruence.
    rewrite Hb, (find_close_firstn q _ k Ek). reflexivity.
  - right. exact Hp.
Qed.

Lemma run_closed_so_far (fuel : nat) :
  closed_so_far source (run source fuel).
Proof.
  unfold run. apply while_loop_ind.
  - intros st [_ Hall] Hr. specialize (Hall Hr).
    destruct (unrecognized source st) eqn:Hu.
    + rewrite (step_unrecognized source st Hu). split.
      * intros i t Ht _. apply Hall. eapply nth_error_In. exact Ht.
      * intros _. exact Hall.
    + destruct (step_places source st Hr Hu) as (t & Hp).
      pose proof (step_closed_or_done st t Hr Hp) as Hc.
      destruct Hp as (Htok & _). unfold closed_so_far. rewrite Htok.
      split.
      * intros i u Hu' Hi. rewrite length_app in Hi. simpl in Hi.
        rewrite nth_error_app1 in Hu' by lia.
        apply Hall. eapply nth_error_In. exact Hu'.
      * intros Hr' u Hu'. apply in_app_or in Hu'.
        destruct Hu' as [Hu'|[<-|[]]]; [apply Hall; exact Hu'|].
        destruct Hc as [Hc|Hc]; [exact Hc|].
        apply in_range_lt in Hr'. lia.
  - split.
    + intros [|i] t; discriminate.
    + intros _ t [].
Qed.

End Unterminated.

(** X15 (unterminated strings come last).  Only the last token of
    [tokenize source] can be a string without its closing delimiter:
    every string token that is followed by another token has one (and, by
    the shape of tokens, ends right after it). *)
Theorem unterminated_string_is_last (source : jsstring) (i : nat)
    (t : Token) :
  nth_error (tokenize source) i = Some t ->
  S i < length (tokenize source) ->
  closed_string t = true.
Proof.
  intros Ht Hi.
  exact (proj1 (run_closed_so_far source (length source)) i t Ht Hi).
Qed.

Lemma unterminated_string_is_last_witness :
  let source := js "'a' 'b" in
  nth_error (tokenize source) 0 = Some (mkToken StringLit (js "'a'") 1 1)
  /\ closed_string (mkToken StringLit (js "'a'") 1 1) = true
  /\ List.map closed_string (tokenize source) = [true; true; false].
Proof.
  intros source. split; [reflexivity|]. split; [|reflexivity].
  apply (unterminated_string_is_last source 0); [reflexivity|].
  simpl. lia.
Defined.
